(** * Nyancat Delta-RLE + Huffman decompressor (csrc/nyancat-huffman.c)

    A shallow embedding of the decompression core of the program: the bit
    reader, the prefix-code opcode decoder, the opcode stream driver, the
    baseline/delta frame reconstructor and the frame-boundary scan of [main].

    C integers are modelled as [Z]; the narrow unsigned types have their
    wrap-around written out.  Arrays are lists; every array access is
    checked and an access outside the array ends the run with
    [OutOfBounds].  Loops without a syntactic iteration count carry an
    explicit step budget, and running out of it is the distinct outcome
    [OutOfFuel]. *)

From Stdlib Require Import ZArith Lia.
From stdpp Require Import base tactics option list numbers.

Local Open Scope Z_scope.

(** ** Outcomes of a run *)

Inductive result (A : Type) : Type :=
| Ok (a : A)
| OutOfBounds
| OutOfFuel.

Arguments Ok {A} a.
Arguments OutOfBounds {A}.
Arguments OutOfFuel {A}.

#[global] Instance result_ret : MRet result := λ A a, Ok a.
#[global] Instance result_bind : MBind result := λ A B f m,
  match m with
  | Ok a => f a
  | OutOfBounds => OutOfBounds
  | OutOfFuel => OutOfFuel
  end.

(** ** Arrays *)

(** [a[i]] as an rvalue. *)
Definition load (a : list Z) (i : Z) : result Z :=
  if bool_decide (0 ≤ i) then
    match a !! Z.to_nat i with
    | Some v => Ok v
    | None => OutOfBounds
    end
  else OutOfBounds.

(** [a[i] = v]. *)
Definition store (a : list Z) (i : Z) (v : Z) : result (list Z) :=
  if bool_decide (0 ≤ i < Z.of_nat (length a)) then Ok (<[Z.to_nat i := v]> a)
  else OutOfBounds.

(** ** Constants *)

Definition FRAME_SIZE : Z := 4096.
Definition FRAME_COUNT : Z := 12.

(** The literal 8192: the size of [opcodes_buffer] and the bound in the guard
    of the opcode stream loop. *)
Definition OPCODES_CAPACITY : Z := 8192.

(** ** Bit stream reader *)

Record BitStream : Type := mkBitStream {
  buffer : Z;          (* uint32_t *)
  bits_available : Z;  (* int *)
  data : list Z;       (* const uint8_t * *)
  data_pos : Z         (* int *)
}.

Definition bitstream_init (d : list Z) : BitStream :=
  {| buffer := 0; bits_available := 0; data := d; data_pos := 0 |}.

Definition bitstream_read_bit (bs : BitStream) : result (Z * BitStream) :=
  bs1 ← (if bits_available bs =? 0 then
           b ← load (data bs) (data_pos bs);
           Ok {| buffer := b; bits_available := 8;
                 data := data bs; data_pos := data_pos bs + 1 |}
         else Ok bs);
  let bit := Z.land (Z.shiftr (buffer bs1) 7) 1 in
  Ok (bit, {| buffer := Z.shiftl (buffer bs1) 1 mod 2 ^ 32;
              bits_available := bits_available bs1 - 1;
              data := data bs1; data_pos := data_pos bs1 |}).

(** ** Huffman table and opcode decoder *)

(** An entry of [huffman_table].  The header that declares the type and the
    table is generated; the three fields are the ones the decoder reads,
    each with the value it has in C. *)
Record HuffmanEntry : Type := mkHuffmanEntry {
  code : Z;
  code_len : Z;
  opcode : Z
}.

(** The inner [for] loop of [huffman_decode_opcode]: the opcode of the first
    entry whose length and code both match. *)
Fixpoint table_scan (table : list HuffmanEntry) (len cur : Z) : option Z :=
  match table with
  | [] => None
  | e :: table' =>
      if (code_len e =? len) && (code e =? cur) then Some (opcode e)
      else table_scan table' len cur
  end.

(** [(current_code << 1) | bit], truncated to [uint16_t]. *)
Definition shift_in (current_code bit : Z) : Z :=
  Z.lor (Z.shiftl current_code 1) bit mod 2 ^ 16.

(** Frame buffers of [decompress_frame]. *)
Record frames : Type := mkFrames {
  frame_buffer : list Z;
  prev_frame_buffer : list Z
}.

(** Local variables of one reconstruction pass: the write position
    ([output_index] or [pos]), [current_color] and the frame being built. *)
Record rle_state : Type := mkRle {
  cursor : Z;
  current_color : Z;
  pixels : list Z
}.

Section Program.

(** The contents of the generated header [nyancat-huffman.h]. *)
Variable huffman_table : list HuffmanEntry.
Variable huffman_compressed_data : list Z.
Variable HUFFMAN_BITSTREAM_LEN : Z.

(** [while (code_len < 16)] of [huffman_decode_opcode]. *)
Fixpoint decode_loop (fuel : nat) (current_code code_len : Z) (bs : BitStream)
    : result (Z * BitStream) :=
  if code_len <? 16 then
    match fuel with
    | O => OutOfFuel
    | S fuel' =>
        '(bit, bs1) ← bitstream_read_bit bs;
        let current_code := shift_in current_code bit in
        let code_len := code_len + 1 in
        match table_scan huffman_table code_len current_code with
        | Some op => Ok (op, bs1)
        | None => decode_loop fuel' current_code code_len bs1
        end
    end
  else Ok (255, bs).

Definition huffman_decode_opcode (bs : BitStream) : result (Z * BitStream) :=
  decode_loop 16 0 0 bs.

(** ** Opcode stream *)

(** Locals of [huffman_decompress_all_opcodes] together with the global
    [opcodes_buffer]. *)
Record stream_state : Type := mkStream {
  stream : BitStream;
  opcode_count : Z;
  bits_read : Z;
  opcodes_buffer : list Z
}.

Fixpoint decompress_loop (fuel : nat) (st : stream_state) : result stream_state :=
  if (bits_read st <? HUFFMAN_BITSTREAM_LEN) && (opcode_count st <? OPCODES_CAPACITY) then
    match fuel with
    | O => OutOfFuel
    | S fuel' =>
        '(op, bs1) ← huffman_decode_opcode (stream st);
        buf ← store (opcodes_buffer st) (opcode_count st) op;
        let st1 := {| stream := bs1; opcode_count := opcode_count st + 1;
                      bits_read := bits_read st + 6; opcodes_buffer := buf |} in
        if (op =? 255) && (4000 <? opcode_count st1) then Ok st1
        else decompress_loop fuel' st1
    end
  else Ok st.

(** Returns the final state: [opcode_count] is the C return value. *)
Definition huffman_decompress_all_opcodes (buf : list Z) : result stream_state :=
  decompress_loop (Z.to_nat OPCODES_CAPACITY)
    {| stream := bitstream_init huffman_compressed_data;
       opcode_count := 0; bits_read := 0; opcodes_buffer := buf |}.

End Program.

(** ** Frame reconstruction *)

(** [for (j = 0; j < count && pos < FRAME_SIZE; j++) frame_buffer[pos++] = color],
    by recursion on the iterations [count - j] that remain. *)
Fixpoint write_run (n : nat) (color pos : Z) (fb : list Z) : result (Z * list Z) :=
  match n with
  | O => Ok (pos, fb)
  | S n' =>
      if pos <? FRAME_SIZE then
        fb' ← store fb pos color;
        write_run n' color (pos + 1) fb'
      else Ok (pos, fb)
  end.

Definition paint (count : Z) (st : rle_state) : result rle_state :=
  '(pos, fb) ← write_run (Z.to_nat count) (current_color st) (cursor st) (pixels st);
  Ok {| cursor := pos; current_color := current_color st; pixels := fb |}.

Definition skip (count : Z) (st : rle_state) : rle_state :=
  {| cursor := cursor st + count; current_color := current_color st;
     pixels := pixels st |}.

Definition set_color (opcode : Z) (st : rle_state) : rle_state :=
  {| cursor := cursor st; current_color := Z.land opcode 15; pixels := pixels st |}.

(** The [if]/[else if] chain of the frame-0 branch. *)
Definition baseline_op (opcode : Z) (st : rle_state) : result rle_state :=
  if Z.land opcode 240 =? 0 then Ok (set_color opcode st)
  else if Z.land opcode 240 =? 32 then paint (Z.land opcode 15 + 1) st
  else if Z.land opcode 240 =? 48 then paint ((Z.land opcode 15 + 1) * 16) st
  else Ok st.

(** The [if]/[else if] chain of the delta branch. *)
Definition delta_op (opcode : Z) (st : rle_state) : result rle_state :=
  if Z.land opcode 240 =? 0 then Ok (set_color opcode st)
  else if Z.land opcode 240 =? 16 then Ok (skip (Z.land opcode 15 + 1) st)
  else if Z.land opcode 240 =? 32 then paint (Z.land opcode 15 + 1) st
  else if Z.land opcode 240 =? 48 then Ok (skip ((Z.land opcode 15 + 1) * 16) st)
  else if Z.land opcode 240 =? 64 then paint ((Z.land opcode 15 + 1) * 16) st
  else if Z.land opcode 240 =? 80 then Ok (skip ((Z.land opcode 15 + 1) * 64) st)
  else Ok st.

(** [for (i = 0; i < opcode_len && pos < FRAME_SIZE; i++)] with its [break],
    by recursion on the iterations [opcode_len - i] that remain.  [opcodes] is
    the pointer argument: the array [buf] it points into and the offset
    [base] of its first element. *)
Fixpoint opcode_loop (op : Z → rle_state → result rle_state) (n : nat)
    (buf : list Z) (base i : Z) (st : rle_state) : result rle_state :=
  match n with
  | O => Ok st
  | S n' =>
      if cursor st <? FRAME_SIZE then
        opcode ← load buf (base + i);
        if opcode =? 255 then Ok st
        else st' ← op opcode st; opcode_loop op n' buf base (i + 1) st'
      else Ok st
  end.

(** [while (output_index < FRAME_SIZE) frame_buffer[output_index++] = 0]. *)
Fixpoint fill_loop (fuel : nat) (pos : Z) (fb : list Z) : result (list Z) :=
  if pos <? FRAME_SIZE then
    match fuel with
    | O => OutOfFuel
    | S fuel' => fb' ← store fb pos 0; fill_loop fuel' (pos + 1) fb'
    end
  else Ok fb.

(** [for (i = 0; i < FRAME_SIZE; i++) dst[i] = src[i]]. *)
Fixpoint copy_loop (n : nat) (i : Z) (src dst : list Z) : result (list Z) :=
  match n with
  | O => Ok dst
  | S n' => v ← load src i; dst' ← store dst i v; copy_loop n' (i + 1) src dst'
  end.

(** The opcode loop of frame 0, up to the fill. *)
Definition baseline_pass (buf : list Z) (base opcode_len : Z) (fb : list Z)
    : result rle_state :=
  opcode_loop baseline_op (Z.to_nat opcode_len) buf base 0
    {| cursor := 0; current_color := 0; pixels := fb |}.

(** The opcode loop of frames 1-11, after the copy of the previous frame. *)
Definition delta_pass (buf : list Z) (base opcode_len : Z) (fb : list Z)
    : result rle_state :=
  opcode_loop delta_op (Z.to_nat opcode_len) buf base 0
    {| cursor := 0; current_color := 0; pixels := fb |}.

Definition decompress_frame (frame_index : Z) (buf : list Z) (base opcode_len : Z)
    (m : frames) : result frames :=
  fb ← (if frame_index =? 0 then
          st ← baseline_pass buf base opcode_len (frame_buffer m);
          fill_loop (Z.to_nat FRAME_SIZE) (cursor st) (pixels st)
        else
          fb0 ← copy_loop (Z.to_nat FRAME_SIZE) 0 (prev_frame_buffer m) (frame_buffer m);
          st ← delta_pass buf base opcode_len fb0;
          Ok (pixels st));
  prev ← copy_loop (Z.to_nat FRAME_SIZE) 0 fb (prev_frame_buffer m);
  Ok {| frame_buffer := fb; prev_frame_buffer := prev |}.

(** ** Frame boundaries ([main], steps 2 and 3) *)

(** [for (i = 0; i < total_opcodes && frame_count < FRAME_COUNT; i++)]. *)
Fixpoint scan_loop (n : nat) (buf : list Z) (i frame_count : Z)
    (frame_starts : list Z) : result (Z * list Z) :=
  match n with
  | O => Ok (frame_count, frame_starts)
  | S n' =>
      if frame_count <? FRAME_COUNT then
        op ← load buf i;
        if op =? 255 then
          fs ← store frame_starts (frame_count + 1) (i + 1);
          scan_loop n' buf (i + 1) (frame_count + 1) fs
        else scan_loop n' buf (i + 1) frame_count frame_starts
      else Ok (frame_count, frame_starts)
  end.

(** [frame_starts] is an automatic array without initialiser: [stack] is
    what its 13 slots hold when [main] is entered. *)
Definition find_frame_boundaries (buf : list Z) (total_opcodes : Z)
    (stack : list Z) : result (Z * list Z) :=
  fs ← store stack 0 0;
  scan_loop (Z.to_nat total_opcodes) buf 0 0 fs.

(** [start] and [len] of one iteration of the frame loop. *)
Definition frame_segment (frame_starts : list Z) (frame : Z) : result (Z * Z) :=
  start ← load frame_starts frame;
  end_ ← load frame_starts (frame + 1);
  Ok (start, end_ - start).

(** The opcodes a segment [(start, len)] covers. *)
Definition segment_opcodes (buf : list Z) (seg : Z * Z) : list Z :=
  take (Z.to_nat (snd seg)) (drop (Z.to_nat (fst seg)) buf).

(** [for (frame = 0; frame < FRAME_COUNT; frame++)]: the frames handed to
    [vga_upload_frame], in order. *)
Fixpoint frame_loop (n : nat) (buf frame_starts : list Z) (frame : Z)
    (m : frames) : result (list (list Z)) :=
  match n with
  | O => Ok []
  | S n' =>
      '(start, len) ← frame_segment frame_starts frame;
      m' ← decompress_frame frame buf start len m;
      rest ← frame_loop n' buf frame_starts (frame + 1) m';
      Ok (frame_buffer m' :: rest)
  end.

Definition main_frames (buf : list Z) (total_opcodes : Z) (stack : list Z)
    (m : frames) : result (list (list Z)) :=
  '(_, fs) ← find_frame_boundaries buf total_opcodes stack;
  frame_loop (Z.to_nat FRAME_COUNT) buf fs 0 m.

(** ** Display registers, pixel packing and frame upload *)

Definition VGA_BASE : Z := 805306368.
Definition VGA_CTRL : Z := VGA_BASE + 4.
Definition VGA_UPLOAD_ADDR : Z := VGA_BASE + 16.
Definition VGA_STREAM_DATA : Z := VGA_BASE + 20.
Definition PIXELS_PER_WORD : Z := 8.

(** [x << n] on [uint32_t]. *)
Definition shl32 (x n : Z) : Z := Z.shiftl x n mod 2 ^ 32.

(** [vga_write32]: the display sees the stores in program order; the log
    keeps them oldest first as (address, value). *)
Definition vga_write32 (addr val : Z) (log : list (Z * Z)) : list (Z * Z) :=
  log ++ [(addr, val)].

(** [pack8_pixels (&a[i])]. *)
Definition pack8_pixels (a : list Z) (i : Z) : result Z :=
  p0 ← load a i;
  p1 ← load a (i + 1);
  p2 ← load a (i + 2);
  p3 ← load a (i + 3);
  p4 ← load a (i + 4);
  p5 ← load a (i + 5);
  p6 ← load a (i + 6);
  p7 ← load a (i + 7);
  Ok (Z.lor (Z.lor (Z.lor (Z.lor (Z.lor (Z.lor (Z.lor
        (Z.land p0 15)
        (shl32 (Z.land p1 15) 4))
        (shl32 (Z.land p2 15) 8))
        (shl32 (Z.land p3 15) 12))
        (shl32 (Z.land p4 15) 16))
        (shl32 (Z.land p5 15) 20))
        (shl32 (Z.land p6 15) 24))
        (shl32 (Z.land p7 15) 28)).

(** [for (i = 0; i < FRAME_SIZE; i += PIXELS_PER_WORD)] of [vga_upload_frame]. *)
Fixpoint upload_loop (fuel : nat) (fb : list Z) (i : Z) (log : list (Z * Z))
    : result (list (Z * Z)) :=
  if i <? FRAME_SIZE then
    match fuel with
    | O => OutOfFuel
    | S fuel' =>
        packed ← pack8_pixels fb i;
        upload_loop fuel' fb (i + PIXELS_PER_WORD) (vga_write32 VGA_STREAM_DATA packed log)
    end
  else Ok log.

(** [fb] is the global [frame_buffer]. *)
Definition vga_upload_frame (frame_index : Z) (fb : list Z) (log : list (Z * Z))
    : result (list (Z * Z)) :=
  upload_loop (Z.to_nat FRAME_SIZE) fb 0
    (vga_write32 VGA_UPLOAD_ADDR (Z.lor (shl32 (Z.land frame_index 15) 16) 0) log).

(** ** Animation loop ([main], step 4) *)

(** [frame = (frame + 1 < FRAME_COUNT) ? frame + 1 : 0] on [uint32_t]. *)
Definition next_frame (frame : Z) : Z :=
  if (frame + 1) mod 2 ^ 32 <? FRAME_COUNT then (frame + 1) mod 2 ^ 32 else 0.

(** The first [n] iterations of the endless loop: each selects a frame in
    the control register, waits, and advances the counter. *)
Fixpoint animate (n : nat) (frame : Z) (log : list (Z * Z)) : Z * list (Z * Z) :=
  match n with
  | O => (frame, log)
  | S n' =>
      animate n' (next_frame frame) (vga_write32 VGA_CTRL (Z.lor (shl32 frame 4) 1) log)
  end.

(** ** Vocabulary of the statements *)

(** The next [n] bits of a stream, in the order [bitstream_read_bit] yields
    them. *)
Fixpoint read_bits (n : nat) (bs : BitStream) : result (list Z * BitStream) :=
  match n with
  | O => Ok ([], bs)
  | S n' =>
      '(bit, bs1) ← bitstream_read_bit bs;
      '(bits, bs2) ← read_bits n' bs1;
      Ok (bit :: bits, bs2)
  end.

Definition is_bit (b : Z) : Prop := b = 0 ∨ b = 1.

(** A frame buffer holds [FRAME_SIZE] pixels. *)
Definition frame_sized (fb : list Z) : Prop := length fb = Z.to_nat FRAME_SIZE.

(** The number a bit sequence spells, first bit most significant. *)
Definition bits_value (bits : list Z) : Z :=
  fold_left (λ acc b, 2 * acc + b) bits 0.

(** The [n] low bits of [c], most significant first. *)
Fixpoint code_bits (n : nat) (c : Z) : list Z :=
  match n with
  | O => []
  | S n' => code_bits n' (Z.shiftr c 1) ++ [Z.land c 1]
  end.

(** The bit sequence of a table entry. *)
Definition codeword (e : HuffmanEntry) : list Z :=
  code_bits (Z.to_nat (code_len e)) (code e).

Definition valid_codeword (e : HuffmanEntry) : Prop :=
  1 ≤ code_len e ≤ 16 ∧ 0 ≤ code e < 2 ^ code_len e.

(** No entry's bit sequence is a prefix of another entry's. *)
Definition prefix_free (table : list HuffmanEntry) : Prop :=
  ∀ (i j : nat) ei ej,
    table !! i = Some ei → table !! j = Some ej → i ≠ j →
    ¬ codeword ei `prefix_of` codeword ej.

(** A 4-bit colour index. *)
Definition pixel (p : Z) : Prop := 0 ≤ p ≤ 15.

(** Invariant of the frame-0 opcode loop: everything below the cursor has
    been painted with a colour index. *)
Definition baseline_inv (st : rle_state) : Prop :=
  0 ≤ cursor st ≤ FRAME_SIZE ∧ frame_sized (pixels st) ∧ pixel (current_color st) ∧
  ∀ (j : nat) p, Z.of_nat j < cursor st → pixels st !! j = Some p → pixel p.

(** Invariant of the delta opcode loop.  A skip is taken only while the
    cursor is below [FRAME_SIZE] and adds at most 1024. *)
Definition delta_inv (st : rle_state) : Prop :=
  0 ≤ cursor st ≤ FRAME_SIZE + 1023 ∧ frame_sized (pixels st).

Definition delta_pixel_inv (st : rle_state) : Prop :=
  delta_inv st ∧ pixel (current_color st) ∧ Forall pixel (pixels st).

(** What claim C1 says of the cursor of a delta pass. *)
Definition cursor_clamped (buf : list Z) (base opcode_len : Z) (fb : list Z) : Prop :=
  ∀ st, delta_pass buf base opcode_len fb = Ok st → 0 ≤ cursor st ≤ FRAME_SIZE.

(** [n] successive calls of the decoder: the opcodes and the stream left. *)
Fixpoint decode_n (table : list HuffmanEntry) (n : nat) (bs : BitStream)
    : result (list Z * BitStream) :=
  match n with
  | O => Ok ([], bs)
  | S n' =>
      '(op, bs1) ← huffman_decode_opcode table bs;
      '(ops, bs2) ← decode_n table n' bs1;
      Ok (op :: ops, bs2)
  end.

(** Bits taken from the payload so far. *)
Definition bits_consumed (bs : BitStream) : Z :=
  8 * data_pos bs - bits_available bs.

Definition bitstream_wf (bs : BitStream) : Prop :=
  0 ≤ bits_available bs ≤ 7 ∧ 0 ≤ data_pos bs.

(** The payload has two bytes for every decoder call the loop guard admits
    (a call reads at most 16 bits). *)
Definition payload_suffices (payload : list Z) (total_bits : Z) : Prop :=
  ∀ c, 0 ≤ c < OPCODES_CAPACITY → 6 * c < total_bits →
       2 * (c + 1) ≤ Z.of_nat (length payload).

(** The opcode stream loop after [length ops] iterations that did not leave
    it: [ops] are the opcodes decoded so far, written at the front of the
    buffer whose initial contents were [buf0]. *)
Definition stream_inv (table : list HuffmanEntry) (payload : list Z)
    (total_bits : Z) (buf0 : list Z) (ops : list Z) (st : stream_state) : Prop :=
  decode_n table (length ops) (bitstream_init payload) = Ok (ops, stream st) ∧
  opcode_count st = Z.of_nat (length ops) ∧
  opcode_count st ≤ OPCODES_CAPACITY ∧
  bits_read st = 6 * opcode_count st ∧
  opcodes_buffer st = ops ++ drop (length ops) buf0 ∧
  (∀ c, 0 ≤ c < opcode_count st → 6 * c < total_bits) ∧
  (∀ i : nat, ops !! i = Some 255 → Z.of_nat i + 1 ≤ 4000).

(** The state in which the loop is left. *)
Definition stream_post (table : list HuffmanEntry) (payload : list Z)
    (total_bits : Z) (buf0 : list Z) (ops : list Z) (st : stream_state) : Prop :=
  decode_n table (length ops) (bitstream_init payload) = Ok (ops, stream st) ∧
  opcode_count st = Z.of_nat (length ops) ∧
  opcode_count st ≤ OPCODES_CAPACITY ∧
  bits_read st = 6 * opcode_count st ∧
  opcodes_buffer st = ops ++ drop (length ops) buf0 ∧
  (∀ c, 0 ≤ c < opcode_count st → 6 * c < total_bits) ∧
  (∀ i : nat, ops !! i = Some 255 → 4000 < Z.of_nat i + 1 →
              Z.of_nat i + 1 = opcode_count st) ∧
  (total_bits ≤ bits_read st ∨ opcode_count st = OPCODES_CAPACITY ∨
   (4000 < opcode_count st ∧ ops !! (length ops - 1)%nat = Some 255)).

(** No table entry matches the first [k] of [bits], for any [lo < k ≤ hi]. *)
Definition no_match (table : list HuffmanEntry) (bits : list Z) (lo hi : nat) : Prop :=
  ∀ k : nat, (lo < k ≤ hi)%nat →
    table_scan table (Z.of_nat k) (bits_value (take k bits)) = None.

(** What claim C5 says of the sentinel: 0xFF is returned only after 16 bits
    none of whose prefixes matched. *)
Definition sentinel_only_on_miss (table : list HuffmanEntry) (bs : BitStream) : Prop :=
  ∀ bs', huffman_decode_opcode table bs = Ok (255, bs') →
    ∃ bits bs16, read_bits 16 bs = Ok (bits, bs16) ∧ no_match table bits 0 16.

(** The number of 0xFF markers in an opcode sequence. *)
Fixpoint markers (ops : list Z) : nat :=
  match ops with
  | [] => 0%nat
  | o :: ops' => if o =? 255 then S (markers ops') else markers ops'
  end.

(** A segment that ends with its marker and holds no other. *)
Definition terminated (piece : list Z) : Prop :=
  ∃ body, piece = body ++ [255] ∧ Forall (λ o, o ≠ 255) body.

(** The [(start, len)] pairs that the frame loop of [main] computes for [n]
    frames from [frame] on. *)
Fixpoint frame_segments (n : nat) (frame_starts : list Z) (frame : Z)
    : result (list (Z * Z)) :=
  match n with
  | O => Ok []
  | S n' =>
      seg ← frame_segment frame_starts frame;
      rest ← frame_segments n' frame_starts (frame + 1);
      Ok (seg :: rest)
  end.

(** Segments that follow one another from [pos] on, none of them empty. *)
Fixpoint chained (pos : Z) (segs : list (Z * Z)) : Prop :=
  match segs with
  | [] => True
  | (start, len) :: segs' => start = pos ∧ 0 < len ∧ chained (pos + len) segs'
  end.

(** The segments of consecutive pieces laid out from [pos] on. *)
Fixpoint segs_of (pos : Z) (pieces : list (list Z)) : list (Z * Z) :=
  match pieces with
  | [] => []
  | p :: pieces' =>
      (pos, Z.of_nat (length p)) :: segs_of (pos + Z.of_nat (length p)) pieces'
  end.

(** State of the boundary scan after [i] opcodes: [pieces] are the segments
    closed so far, [cur] the opcodes since the last marker, and slot [k] of
    [frame_starts] holds the end of the first [k] pieces. *)
Definition scan_inv (buf : list Z) (i fc : nat) (fs : list Z)
    (pieces : list (list Z)) (cur : list Z) : Prop :=
  take i buf = concat pieces ++ cur ∧ length pieces = fc ∧
  Forall terminated pieces ∧ Forall (λ o, o ≠ 255) cur ∧
  length fs = 13%nat ∧ (fc ≤ 12)%nat ∧ (i ≤ length buf)%nat ∧
  ∀ k : nat, (k ≤ fc)%nat →
    fs !! k = Some (Z.of_nat (length (concat (take k pieces)))).

(** What claim C3 says of the split: the twelve segments of the frame loop,
    which carry their markers, concatenate to the whole sequence. *)
Definition split_reproduces (buf : list Z) (total_opcodes : Z) (stack : list Z) : Prop :=
  ∃ fc fs segs,
    find_frame_boundaries buf total_opcodes stack = Ok (fc, fs) ∧
    frame_segments 12 fs 0 = Ok segs ∧
    concat (map (segment_opcodes buf) segs) = take (Z.to_nat total_opcodes) buf.

(** An 8-bit value. *)
Definition is_byte (b : Z) : Prop := 0 ≤ b < 256.

(** Pixel [k] of a packed word. *)
Definition nibble (w : Z) (k : Z) : Z := Z.land (Z.shiftr w (4 * k)) 15.

(** The eight pixels of a packed word, lowest nibble first. *)
Definition unpack8 (w : Z) : list Z :=
  [nibble w 0; nibble w 1; nibble w 2; nibble w 3;
   nibble w 4; nibble w 5; nibble w 6; nibble w 7].

(** The pixels a frame-0 opcode sequence paints, as one list: runs of the
    current colour, up to the first terminator. *)
Fixpoint baseline_expand (ops : list Z) (color : Z) : list Z :=
  match ops with
  | [] => []
  | o :: ops' =>
      if o =? 255 then []
      else if Z.land o 240 =? 0 then baseline_expand ops' (Z.land o 15)
      else if Z.land o 240 =? 32 then
        replicate (Z.to_nat (Z.land o 15 + 1)) color ++ baseline_expand ops' color
      else if Z.land o 240 =? 48 then
        replicate (Z.to_nat ((Z.land o 15 + 1) * 16)) color ++ baseline_expand ops' color
      else baseline_expand ops' color
  end.

(** An opcode that paints in a delta frame. *)
Definition is_repeat (o : Z) : Prop := Z.land o 240 = 32 ∨ Z.land o 240 = 64.

(** A successful run. *)
Definition is_Ok {A} (r : result A) : Prop := ∃ a, r = Ok a.

(** ** Sample inputs *)

(** Eleven one-opcode segments, each closed by its marker, and a twelfth
    segment [5; 35] that no marker closes. *)
Definition eleven_markers : list Z :=
  [1; 255; 2; 255; 3; 255; 4; 255; 5; 255; 6; 255; 7; 255; 8; 255; 9; 255;
   10; 255; 11; 255; 5; 35].

(** The same with the twelfth segment closed. *)
Definition twelve_markers : list Z := eleven_markers ++ [255; 7].

(** The frame buffers as the program starts: static storage is zeroed. *)
Definition zero_frames : frames :=
  {| frame_buffer := replicate (Z.to_nat FRAME_SIZE) 0;
     prev_frame_buffer := replicate (Z.to_nat FRAME_SIZE) 0 |}.

(** A three-entry prefix code: 0 -> 0x05, 10 -> 0x23, 11 -> 0xFF. *)
Definition sample_table : list HuffmanEntry :=
  [ {| code := 0; code_len := 1; opcode := 5 |};
    {| code := 2; code_len := 2; opcode := 35 |};
    {| code := 3; code_len := 2; opcode := 255 |} ].

(** An incomplete prefix code: 0 -> 0x05, 10 -> 0xFF, and no codeword that
    starts with 11. *)
Definition incomplete_table : list HuffmanEntry :=
  [ {| code := 0; code_len := 1; opcode := 5 |};
    {| code := 2; code_len := 2; opcode := 255 |} ].

(** A table whose only codeword, the single bit 0, is the terminator. *)
Definition terminator_table : list HuffmanEntry :=
  [ {| code := 0; code_len := 1; opcode := 255 |} ].

(** * Proofs *)

Ltac len_solve := rewrite ?length_app in *; cbn [length] in *; lia.

(** ** The result monad *)

Lemma bind_Ok {A B} (m : result A) (f : A → result B) b :
  m ≫= f = Ok b → ∃ a, m = Ok a ∧ f a = Ok b.
Proof. destruct m; simpl; intros; eauto; discriminate. Qed.

Lemma ok_bind {A B} (a : A) (f : A → result B) : Ok a ≫= f = f a.
Proof. done. Qed.

(** Reduce binds of finished runs without unfolding the loops behind them. *)
Ltac ok_step := rewrite !ok_bind; cbv beta.

Lemma load_Ok a i v :
  load a i = Ok v ↔ 0 ≤ i ∧ a !! Z.to_nat i = Some v.
Proof.
  unfold load. case_bool_decide.
  - destruct (a !! Z.to_nat i) eqn:E; split; intros; destruct_and?; simplify_eq; auto.
  - split; intros; destruct_and?; [discriminate | lia].
Qed.

Lemma load_in_range a i :
  0 ≤ i < Z.of_nat (length a) → ∃ v, load a i = Ok v ∧ a !! Z.to_nat i = Some v.
Proof.
  intros H. destruct (lookup_lt_is_Some_2 a (Z.to_nat i)) as [v Hv]; [lia|].
  exists v. split; [|done]. apply load_Ok. split; [lia | done].
Qed.

Lemma store_Ok a i v a' :
  store a i v = Ok a' ↔ 0 ≤ i < Z.of_nat (length a) ∧ a' = <[Z.to_nat i := v]> a.
Proof.
  unfold store. case_bool_decide as Hi; split.
  - intros [= <-]. done.
  - by intros [_ ->].
  - discriminate.
  - intros [? _]. by destruct Hi.
Qed.

Lemma store_in_range a i v :
  0 ≤ i < Z.of_nat (length a) → store a i v = Ok (<[Z.to_nat i := v]> a).
Proof. intros. by apply store_Ok. Qed.

Lemma load_fuel a i : load a i ≠ OutOfFuel.
Proof. unfold load. case_bool_decide; [|done]. by destruct (a !! Z.to_nat i). Qed.

Lemma store_fuel a i v : store a i v ≠ OutOfFuel.
Proof. unfold store. by case_bool_decide. Qed.

(** ** Bits and codewords *)

Lemma land_1_bit x : is_bit (Z.land x 1).
Proof.
  change 1 with (Z.ones 1). rewrite Z.land_ones by lia.
  unfold is_bit. change (2 ^ 1) with 2.
  pose proof (Z.mod_pos_bound x 2). lia.
Qed.

Lemma div2_double v b : is_bit b → (2 * v + b) / 2 = v ∧ (2 * v + b) mod 2 = b.
Proof.
  intros Hb. rewrite (Z.add_comm (2 * v)), (Z.mul_comm 2).
  rewrite Z.div_add, Z.mod_add by lia.
  destruct Hb as [-> | ->]; done.
Qed.

Lemma mod2_div2 c : c = 2 * (c / 2) + c mod 2 ∧ is_bit (c mod 2).
Proof.
  split; [apply Z.div_mod; lia|].
  pose proof (Z.mod_pos_bound c 2). unfold is_bit. lia.
Qed.

Lemma Forall_snoc {A} (P : A → Prop) l x :
  Forall P (l ++ [x]) ↔ Forall P l ∧ P x.
Proof. by rewrite Forall_app, Forall_singleton. Qed.

Lemma bits_value_snoc l b : bits_value (l ++ [b]) = 2 * bits_value l + b.
Proof. unfold bits_value. by rewrite fold_left_app. Qed.

Lemma bits_value_bound l :
  Forall is_bit l → 0 ≤ bits_value l < 2 ^ Z.of_nat (length l).
Proof.
  induction l as [|b l IH] using rev_ind; intros H.
  - cbn. lia.
  - apply Forall_snoc in H as [Hl Hb].
    rewrite bits_value_snoc, length_app, Nat.add_1_r, Nat2Z.inj_succ, Z.pow_succ_r by lia.
    specialize (IH Hl). destruct Hb; lia.
Qed.

Lemma code_bits_length n c : length (code_bits n c) = n.
Proof.
  revert c. induction n as [|n IH]; intros c; simpl; [done|].
  rewrite length_app, IH. simpl. lia.
Qed.

Lemma code_bits_is_bit n c : Forall is_bit (code_bits n c).
Proof.
  revert c. induction n as [|n IH]; intros c; simpl; [constructor|].
  apply Forall_snoc. split; [apply IH | apply land_1_bit].
Qed.

Lemma code_bits_value l :
  Forall is_bit l → code_bits (length l) (bits_value l) = l.
Proof.
  induction l as [|b l IH] using rev_ind; intros H; [done|].
  apply Forall_snoc in H as [Hl Hb].
  rewrite length_app, Nat.add_1_r, bits_value_snoc. simpl.
  change 1 with (Z.ones 1) at 2. rewrite Z.land_ones, Z.shiftr_div_pow2 by lia.
  change (2 ^ 1) with 2.
  destruct (div2_double (bits_value l) b Hb) as [-> ->].
  by rewrite IH.
Qed.

Lemma bits_value_code n c :
  0 ≤ c < 2 ^ Z.of_nat n → bits_value (code_bits n c) = c.
Proof.
  revert c. induction n as [|n IH]; intros c Hc.
  - cbn in *. lia.
  - simpl code_bits. rewrite bits_value_snoc.
    rewrite Nat2Z.inj_succ, Z.pow_succ_r in Hc by lia.
    change 1 with (Z.ones 1) at 2. rewrite Z.land_ones, Z.shiftr_div_pow2 by lia.
    change (2 ^ 1) with 2. destruct (mod2_div2 c) as [Hc2 Hb].
    rewrite IH; [lia|]. destruct Hb; lia.
Qed.

Lemma shift_in_value l b :
  Forall is_bit l → (length l < 16)%nat → is_bit b →
  shift_in (bits_value l) b = bits_value (l ++ [b]).
Proof.
  intros Hl Hlen Hb. unfold shift_in.
  pose proof (bits_value_bound l Hl) as Hv.
  assert (2 ^ Z.of_nat (length l) ≤ 2 ^ 15) by (apply Z.pow_le_mono_r; lia).
  rewrite Z.shiftl_mul_pow2 by lia. change (2 ^ 1) with 2.
  rewrite bits_value_snoc.
  assert (Z.lor (bits_value l * 2) b = 2 * bits_value l + b) as ->.
  { destruct Hb as [-> | ->].
    - rewrite Z.lor_0_r. lia.
    - pose proof (Z.add_lor_land (bits_value l * 2) 1) as Hadd.
      change 1 with (Z.ones 1) in Hadd at 2. rewrite Z.land_ones in Hadd by lia.
      change (2 ^ 1) with 2 in Hadd. rewrite Z.mod_mul in Hadd by lia.
      change (Z.ones 1) with 1 in Hadd. lia. }
  apply Z.mod_small. change (2 ^ 16) with (2 * 2 ^ 15). destruct Hb; lia.
Qed.

(** ** Bit reader *)

Lemma bitstream_read_bit_is_bit bs b bs1 :
  bitstream_read_bit bs = Ok (b, bs1) → is_bit b.
Proof.
  unfold bitstream_read_bit. intros H.
  apply bind_Ok in H as (bs0 & _ & [= <- _]). apply land_1_bit.
Qed.

Lemma bitstream_read_bit_fuel bs : bitstream_read_bit bs ≠ OutOfFuel.
Proof.
  unfold bitstream_read_bit. destruct (bits_available bs =? 0); [|done].
  pose proof (load_fuel (data bs) (data_pos bs)).
  by destruct (load (data bs) (data_pos bs)).
Qed.

Lemma read_bits_S n bs :
  read_bits (S n) bs =
  '(bit, bs1) ← bitstream_read_bit bs;
  '(bits, bs2) ← read_bits n bs1; Ok (bit :: bits, bs2).
Proof. done. Qed.

Lemma read_bits_cons n bs bits bs' :
  read_bits (S n) bs = Ok (bits, bs') →
  ∃ b rest bs1, bits = b :: rest ∧ bitstream_read_bit bs = Ok (b, bs1) ∧
                read_bits n bs1 = Ok (rest, bs').
Proof.
  rewrite read_bits_S. intros H.
  apply bind_Ok in H as ([b bs1] & Hb & H).
  apply bind_Ok in H as ([rest bs2] & Hr & [= <- <-]). eauto 6.
Qed.

Lemma read_bits_spec n bs bits bs' :
  read_bits n bs = Ok (bits, bs') → length bits = n ∧ Forall is_bit bits.
Proof.
  revert bs bits. induction n as [|n IH]; intros bs bits H.
  - injection H as <- <-. by split.
  - apply read_bits_cons in H as (b & rest & bs1 & -> & Hb & Hr).
    destruct (IH _ _ Hr) as [<- Hbits]. split; [done|].
    constructor; [by eapply bitstream_read_bit_is_bit | done].
Qed.

(** ** Table scan *)

Lemma table_scan_Some table len cur op :
  table_scan table len cur = Some op →
  ∃ (j : nat) e, table !! j = Some e ∧ code_len e = len ∧ code e = cur ∧ opcode e = op ∧
    ∀ (j' : nat) e', (j' < j)%nat → table !! j' = Some e' →
                     ¬ (code_len e' = len ∧ code e' = cur).
Proof.
  induction table as [|e table IH]; [done|]. simpl.
  destruct ((code_len e =? len) && (code e =? cur)) eqn:E.
  - intros [= <-]. apply andb_true_iff in E as [?%Z.eqb_eq ?%Z.eqb_eq].
    exists 0%nat, e. repeat split; try done. intros; lia.
  - intros (j & e' & Hj & ? & ? & ? & Hfirst)%IH.
    exists (S j), e'. repeat split; try done.
    intros [|j'] e'' Hlt Hj'; simpl in Hj'.
    + injection Hj' as <-. intros [<- <-]. by rewrite !Z.eqb_refl in E.
    + apply (Hfirst j'); [lia | done].
Qed.

Lemma table_scan_is_Some table (i : nat) e :
  table !! i = Some e →
  is_Some (table_scan table (code_len e) (code e)).
Proof.
  revert i. induction table as [|e' table IH]; intros i; [done|]. simpl.
  destruct ((code_len e' =? code_len e) && (code e' =? code e)) eqn:E; [by eexists|].
  destruct i as [|i]; simpl.
  - intros [= ->]. by rewrite !Z.eqb_refl in E.
  - apply IH.
Qed.

(** ** Opcode decoder *)

Section Decoder.

Variable huffman_table : list HuffmanEntry.

Lemma decode_loop_unfold fuel cc len bs :
  len < 16 →
  decode_loop huffman_table (S fuel) cc len bs =
  '(bit, bs1) ← bitstream_read_bit bs;
  match table_scan huffman_table (len + 1) (shift_in cc bit) with
  | Some op => Ok (op, bs1)
  | None => decode_loop huffman_table fuel (shift_in cc bit) (len + 1) bs1
  end.
Proof. intros H. simpl. by rewrite (proj2 (Z.ltb_lt _ _) H). Qed.

Lemma decode_loop_done fuel cc len bs :
  16 ≤ len → decode_loop huffman_table fuel cc len bs = Ok (255, bs).
Proof. intros H. destruct fuel; simpl; by rewrite (proj2 (Z.ltb_ge _ _) H). Qed.

Lemma take_snoc_app (l rest : list Z) b :
  take (S (length l)) (l ++ b :: rest) = l ++ [b].
Proof.
  rewrite (cons_middle b l rest), app_assoc.
  rewrite take_app_length'; [done|]. rewrite length_app. simpl. lia.
Qed.

(** The decoder returns at the first length whose accumulated bits match. *)
Lemma decode_loop_hit rest : ∀ l bs bs' fuel op,
  Forall is_bit l →
  read_bits (length rest) bs = Ok (rest, bs') →
  rest ≠ [] →
  (length (l ++ rest) ≤ 16)%nat →
  (length rest ≤ fuel)%nat →
  no_match huffman_table (l ++ rest) (length l) (length (l ++ rest) - 1) →
  table_scan huffman_table (Z.of_nat (length (l ++ rest))) (bits_value (l ++ rest)) = Some op →
  decode_loop huffman_table fuel (bits_value l) (Z.of_nat (length l)) bs = Ok (op, bs').
Proof.
  induction rest as [|b rest IH]; intros l bs bs' fuel op Hl Hread Hne Hlen Hfuel Hno Hhit;
    [done|].
  simpl length in Hread.
  apply read_bits_cons in Hread as (b0 & rest0 & bs1 & [= <- <-] & Hb & Hrest).
  rewrite length_app in Hlen. simpl in Hlen, Hfuel.
  destruct fuel as [|fuel]; [lia|].
  rewrite decode_loop_unfold by lia. rewrite Hb. simpl.
  pose proof (bitstream_read_bit_is_bit _ _ _ Hb) as Hbit.
  rewrite shift_in_value by (done || lia).
  replace (Z.of_nat (length l) + 1) with (Z.of_nat (length (l ++ [b])))
    by (rewrite length_app; simpl; lia).
  destruct rest as [|b' rest].
  - injection Hrest as <-. by rewrite Hhit.
  - assert (table_scan huffman_table (Z.of_nat (length (l ++ [b])))
              (bits_value (l ++ [b])) = None) as ->.
    { rewrite <- (take_snoc_app l (b' :: rest) b) at 2.
      replace (length (l ++ [b])) with (S (length l))
        by (rewrite length_app; simpl; lia).
      apply Hno. len_solve. }
    rewrite (cons_middle b l), app_assoc in Hno, Hhit.
    apply IH; try done.
    + apply Forall_snoc. by split.
    + len_solve.
    + len_solve.
    + intros k Hk. apply Hno. len_solve.
Qed.

(** Sixteen bits without a match end in the sentinel. *)
Lemma decode_loop_miss rest : ∀ l bs bs' fuel,
  Forall is_bit l →
  read_bits (length rest) bs = Ok (rest, bs') →
  length (l ++ rest) = 16%nat →
  (length rest ≤ fuel)%nat →
  no_match huffman_table (l ++ rest) (length l) 16 →
  decode_loop huffman_table fuel (bits_value l) (Z.of_nat (length l)) bs = Ok (255, bs').
Proof.
  induction rest as [|b rest IH]; intros l bs bs' fuel Hl Hread Hlen Hfuel Hno.
  - injection Hread as <-. rewrite app_nil_r in Hlen.
    apply decode_loop_done. lia.
  - simpl length in Hread.
    apply read_bits_cons in Hread as (b0 & rest0 & bs1 & [= <- <-] & Hb & Hrest).
    rewrite length_app in Hlen. simpl in Hlen, Hfuel.
    destruct fuel as [|fuel]; [lia|].
    rewrite decode_loop_unfold by lia. rewrite Hb. simpl.
    pose proof (bitstream_read_bit_is_bit _ _ _ Hb) as Hbit.
    rewrite shift_in_value by (done || lia).
    replace (Z.of_nat (length l) + 1) with (Z.of_nat (length (l ++ [b])))
      by (rewrite length_app; simpl; lia).
    assert (table_scan huffman_table (Z.of_nat (length (l ++ [b])))
              (bits_value (l ++ [b])) = None) as ->.
    { rewrite <- (take_snoc_app l rest b) at 2.
      replace (length (l ++ [b])) with (S (length l))
        by (rewrite length_app; simpl; lia).
      apply Hno. len_solve. }
    rewrite (cons_middle b l), app_assoc in Hno.
    apply IH; try done.
    + apply Forall_snoc. by split.
    + len_solve.
    + len_solve.
    + intros k Hk. apply Hno. len_solve.
Qed.

(** Conversely, a successful run read some bits and either exhausted the
    sixteen lengths or stopped at the first match. *)
Lemma decode_loop_inv fuel : ∀ l bs op bs',
  Forall is_bit l → (length l ≤ 16)%nat →
  decode_loop huffman_table fuel (bits_value l) (Z.of_nat (length l)) bs = Ok (op, bs') →
  ∃ rest, read_bits (length rest) bs = Ok (rest, bs') ∧ (length (l ++ rest) ≤ 16)%nat ∧
    ((length (l ++ rest) = 16%nat ∧ no_match huffman_table (l ++ rest) (length l) 16 ∧
      op = 255) ∨
     (rest ≠ [] ∧
      no_match huffman_table (l ++ rest) (length l) (length (l ++ rest) - 1) ∧
      table_scan huffman_table (Z.of_nat (length (l ++ rest))) (bits_value (l ++ rest))
        = Some op)).
Proof.
  induction fuel as [|fuel IH]; intros l bs op bs' Hl Hlen Hrun.
  - destruct (decide (length l = 16%nat)) as [E|E].
    + rewrite decode_loop_done in Hrun by lia. injection Hrun as <- <-.
      exists []. rewrite app_nil_r. repeat split; try done.
      left. repeat split; try done. intros k Hk. lia.
    + simpl in Hrun. rewrite (proj2 (Z.ltb_lt _ _)) in Hrun by lia. done.
  - destruct (decide (length l = 16%nat)) as [E|E].
    + rewrite decode_loop_done in Hrun by lia. injection Hrun as <- <-.
      exists []. rewrite app_nil_r. repeat split; try done.
      left. repeat split; try done. intros k Hk. lia.
    + rewrite decode_loop_unfold in Hrun by lia.
      apply bind_Ok in Hrun as ([b bs1] & Hb & Hrun).
      pose proof (bitstream_read_bit_is_bit _ _ _ Hb) as Hbit.
      rewrite shift_in_value in Hrun by (done || lia).
      replace (Z.of_nat (length l) + 1) with (Z.of_nat (length (l ++ [b]))) in Hrun
        by len_solve.
      destruct (table_scan huffman_table _ _) as [op0|] eqn:Hscan.
      * injection Hrun as <- <-. exists [b]. simpl. rewrite Hb. simpl.
        repeat split; [len_solve|]. right. repeat split; try done.
        intros k Hk. len_solve.
      * apply IH in Hrun as (rest & Hread & Hlen' & Hcase);
          [| apply Forall_snoc; by split | len_solve].
        exists (b :: rest). simpl length. rewrite read_bits_S, Hb. simpl.
        rewrite Hread. simpl. rewrite (cons_middle b l rest), app_assoc.
        repeat split; [done|].
        assert (∀ hi, no_match huffman_table ((l ++ [b]) ++ rest) (length (l ++ [b])) hi →
                      no_match huffman_table ((l ++ [b]) ++ rest) (length l) hi) as Hext.
        { intros hi Hno k Hk. destruct (decide (k = S (length l))) as [-> | Hne].
          - rewrite <- app_assoc, <- cons_middle, take_snoc_app.
            replace (S (length l)) with (length (l ++ [b])) by len_solve. done.
          - apply Hno. len_solve. }
        destruct Hcase as [(? & ? & ?) | (? & ? & ?)]; [left | right];
          repeat split; auto.
Qed.

(** Sixteen units of fuel are enough: the loop never runs out. *)
Lemma decode_loop_fuel fuel : ∀ cc len bs,
  16 - len ≤ Z.of_nat fuel → decode_loop huffman_table fuel cc len bs ≠ OutOfFuel.
Proof.
  induction fuel as [|fuel IH]; intros cc len bs Hfuel.
  - by rewrite decode_loop_done by lia.
  - destruct (decide (len < 16)) as [Hlt|Hge].
    + rewrite decode_loop_unfold by done.
      pose proof (bitstream_read_bit_fuel bs).
      destruct (bitstream_read_bit bs) as [[b bs1]| |]; simpl; try done.
      destruct (table_scan _ _ _); [done|]. apply IH. lia.
    + by rewrite decode_loop_done by lia.
Qed.

End Decoder.

(** ** Claims about the opcode decoder *)

(** C4.  For a prefix-free code table and a valid codeword [e] in it, decoding
    a bit stream whose next bits are exactly the bits of [e] returns the
    opcode of [e], having consumed exactly those bits; no shorter length of
    the accumulated bits matches any table entry, so the match is at the
    first length at which one exists. *)
Theorem decode_codeword (table : list HuffmanEntry) (i : nat) (e : HuffmanEntry)
    (bs bs' : BitStream) :
  prefix_free table →
  table !! i = Some e →
  valid_codeword e →
  read_bits (Z.to_nat (code_len e)) bs = Ok (codeword e, bs') →
  huffman_decode_opcode table bs = Ok (opcode e, bs') ∧
  no_match table (codeword e) 0 (Z.to_nat (code_len e) - 1).
Proof.
  intros Hpf Hi [Hlen Hcode] Hread.
  assert (length (codeword e) = Z.to_nat (code_len e)) as HL
    by apply code_bits_length.
  assert (Forall is_bit (codeword e)) as Hbits by apply code_bits_is_bit.
  assert (bits_value (codeword e) = code e) as Hval.
  { apply bits_value_code. rewrite Z2Nat.id by lia. done. }
  assert (no_match table (codeword e) 0 (Z.to_nat (code_len e) - 1)) as Hno.
  { intros k Hk.
    destruct (table_scan table _ _) as [op|] eqn:Hscan; [exfalso | done].
    apply table_scan_Some in Hscan as (j & e' & Hj & Hlen' & Hcode' & _).
    assert (codeword e' = take k (codeword e)) as Hcw.
    { unfold codeword at 1. rewrite Hlen', Hcode', Nat2Z.id.
      rewrite <- (code_bits_value (take k (codeword e))) at 2.
      - by rewrite length_take_le by lia.
      - by apply Forall_take. }
    destruct (decide (j = i)) as [-> | Hne].
    - rewrite Hi in Hj. injection Hj as <-. lia.
    - apply (Hpf j i e' e Hj Hi Hne). rewrite Hcw. apply prefix_take. }
  split; [|done].
  unfold huffman_decode_opcode.
  apply (decode_loop_hit table (codeword e) [] bs bs' 16 (opcode e)); simpl;
    rewrite ?HL; try done; try lia.
  - intros E. rewrite E in HL. simpl in HL. lia.
  - rewrite Hval, Z2Nat.id by lia.
    destruct (table_scan_is_Some table i e Hi) as [op Hscan]. rewrite Hscan.
    apply table_scan_Some in Hscan as (j & e' & Hj & Hlen' & Hcode' & <- & _).
    destruct (decide (j = i)) as [-> | Hne].
    + rewrite Hi in Hj. by injection Hj as <-.
    + exfalso. apply (Hpf j i e' e Hj Hi Hne).
      unfold codeword. by rewrite Hlen', Hcode'.
Qed.


Lemma sample_table_prefix_free : prefix_free sample_table.
Proof.
  intros i j ei ej Hi Hj Hne [k Hk].
  destruct i as [|[|[|i]]]; try done; destruct j as [|[|[|j]]]; try done;
    injection Hi as <-; injection Hj as <-; discriminate Hk.
Defined.

Lemma decode_codeword_witness :
  huffman_decode_opcode sample_table (bitstream_init [128]) =
    Ok (35, {| buffer := 512; bits_available := 6; data := [128]; data_pos := 1 |}) ∧
  no_match sample_table [1; 0] 0 (2 - 1).
Proof.
  apply (decode_codeword sample_table 1 {| code := 2; code_len := 2; opcode := 35 |}).
  - exact sample_table_prefix_free.
  - reflexivity.
  - unfold valid_codeword. simpl. lia.
  - reflexivity.
Defined.

(** C5 (as amended).  If the next sixteen bits of the stream match no table
    entry at any length, the decoder returns the sentinel 0xFF after reading
    exactly those sixteen bits.  Conversely, when it returns 0xFF, either it
    has read sixteen bits none of whose prefixes matched, or it has stopped
    at a table entry, of the length and value of the bits read, whose own
    opcode is 0xFF. *)
Theorem decode_sentinel (table : list HuffmanEntry) (bs : BitStream) :
  (∀ bits bs16,
     read_bits 16 bs = Ok (bits, bs16) → no_match table bits 0 16 →
     huffman_decode_opcode table bs = Ok (255, bs16)) ∧
  (∀ bs',
     huffman_decode_opcode table bs = Ok (255, bs') →
     (∃ bits, read_bits 16 bs = Ok (bits, bs') ∧ no_match table bits 0 16) ∨
     (∃ bits (j : nat) e,
        bits ≠ [] ∧ (length bits ≤ 16)%nat ∧
        read_bits (length bits) bs = Ok (bits, bs') ∧
        no_match table bits 0 (length bits - 1) ∧
        table !! j = Some e ∧ code_len e = Z.of_nat (length bits) ∧
        code e = bits_value bits ∧ opcode e = 255)).
Proof.
  split.
  - intros bits bs16 Hread Hno.
    destruct (read_bits_spec _ _ _ _ Hread) as [Hlen _].
    unfold huffman_decode_opcode.
    apply (decode_loop_miss table bits [] bs bs16 16); simpl; rewrite ?Hlen; done.
  - intros bs' Hrun. unfold huffman_decode_opcode in Hrun.
    apply (decode_loop_inv table 16 [] bs 255 bs') in Hrun
      as (rest & Hread & Hlen & Hcase); [| constructor | simpl; lia].
    simpl in Hlen, Hcase.
    destruct Hcase as [(H16 & Hno & _) | (Hne & Hno & Hscan)].
    + left. exists rest. rewrite H16 in Hread. done.
    + right. apply table_scan_Some in Hscan as (j & e & Hj & ? & ? & ? & _).
      exists rest, j, e. done.
Qed.

(** Both directions on [incomplete_table]: sixteen 1-bits are compared with
    both entries at every length 1..16 and match none, so the sentinel comes
    back after 16 bits; the bits 10 match the entry that carries 0xFF. *)
Lemma decode_sentinel_witness :
  huffman_decode_opcode incomplete_table (bitstream_init [255; 255])
    = Ok (255, {| buffer := 65280; bits_available := 0;
                  data := [255; 255]; data_pos := 2 |}) ∧
  ((∃ bits,
      read_bits 16 (bitstream_init [128; 0])
        = Ok (bits, {| buffer := 512; bits_available := 6;
                       data := [128; 0]; data_pos := 1 |}) ∧
      no_match incomplete_table bits 0 16) ∨
   (∃ bits (j : nat) e,
      bits ≠ [] ∧ (length bits ≤ 16)%nat ∧
      read_bits (length bits) (bitstream_init [128; 0])
        = Ok (bits, {| buffer := 512; bits_available := 6;
                       data := [128; 0]; data_pos := 1 |}) ∧
      no_match incomplete_table bits 0 (length bits - 1) ∧
      incomplete_table !! j = Some e ∧ code_len e = Z.of_nat (length bits) ∧
      code e = bits_value bits ∧ opcode e = 255)).
Proof.
  split.
  - apply (proj1 (decode_sentinel incomplete_table (bitstream_init [255; 255]))
             (replicate 16 1)).
    + reflexivity.
    + intros k Hk.
      do 17 (destruct k as [|k]; [first [lia | reflexivity]|]). lia.
  - apply (proj2 (decode_sentinel incomplete_table (bitstream_init [128; 0]))).
    reflexivity.
Defined.

(** C5 as stated fails: with a table entry whose opcode is 0xFF, the decoder
    returns 0xFF after a single matching bit. *)
Lemma sentinel_also_on_match :
  ¬ sentinel_only_on_miss sample_table (bitstream_init [192; 0]).
Proof.
  intros H.
  destruct (H {| buffer := 768; bits_available := 6; data := [192; 0]; data_pos := 1 |})
    as (bits & bs16 & Hread & Hno); [reflexivity|].
  vm_compute in Hread. injection Hread as <- _.
  specialize (Hno 2%nat ltac:(lia)). vm_compute in Hno. discriminate Hno.
Qed.

(** ** Frame buffer loops *)

Ltac fs_lia := unfold frame_sized, FRAME_SIZE in *; lia.

Lemma write_run_spec n color : ∀ pos fb,
  0 ≤ pos → frame_sized fb →
  ∃ fb', write_run n color pos fb
           = Ok (Z.max pos (Z.min (pos + Z.of_nat n) FRAME_SIZE), fb') ∧
         frame_sized fb' ∧
         ∀ j : nat, fb' !! j =
           if bool_decide (pos ≤ Z.of_nat j < Z.min (pos + Z.of_nat n) FRAME_SIZE)
           then Some color else fb !! j.
Proof.
  induction n as [|n IH]; intros pos fb Hpos Hfb.
  - exists fb. simpl. split; [do 2 f_equal; lia|]. split; [done|].
    intros j. case_bool_decide; [lia | done].
  - simpl write_run. destruct (pos <? FRAME_SIZE) eqn:E.
    + apply Z.ltb_lt in E. rewrite store_in_range by fs_lia. simpl.
      destruct (IH (pos + 1) (<[Z.to_nat pos := color]> fb)) as (fb' & Hrun & Hlen & Hlk);
        [lia | unfold frame_sized; by rewrite length_insert |].
      exists fb'. rewrite Hrun. split; [do 2 f_equal; lia|]. split; [done|].
      intros j. rewrite Hlk.
      destruct (decide (j = Z.to_nat pos)) as [-> | Hne].
      * rewrite list_lookup_insert_eq by fs_lia.
        repeat case_bool_decide; try done; lia.
      * rewrite list_lookup_insert_ne by done.
        repeat case_bool_decide; try done; lia.
    + apply Z.ltb_ge in E. exists fb. split; [do 2 f_equal; lia|]. split; [done|].
      intros j. case_bool_decide; [lia | done].
Qed.

Lemma fill_loop_spec fuel : ∀ pos fb,
  0 ≤ pos → frame_sized fb → FRAME_SIZE - pos ≤ Z.of_nat fuel →
  ∃ fb', fill_loop fuel pos fb = Ok fb' ∧ frame_sized fb' ∧
         ∀ j : nat, fb' !! j =
           if bool_decide (pos ≤ Z.of_nat j < FRAME_SIZE) then Some 0 else fb !! j.
Proof.
  induction fuel as [|fuel IH]; intros pos fb Hpos Hfb Hfuel.
  - exists fb. simpl. rewrite (proj2 (Z.ltb_ge _ _)) by lia. split; [done|].
    split; [done|]. intros j. case_bool_decide; [lia | done].
  - simpl fill_loop. destruct (pos <? FRAME_SIZE) eqn:E.
    + apply Z.ltb_lt in E. rewrite store_in_range by fs_lia. simpl.
      destruct (IH (pos + 1) (<[Z.to_nat pos := 0]> fb)) as (fb' & Hrun & Hlen & Hlk);
        [lia | unfold frame_sized; by rewrite length_insert | lia |].
      exists fb'. rewrite Hrun. split; [done|]. split; [done|].
      intros j. rewrite Hlk.
      destruct (decide (j = Z.to_nat pos)) as [-> | Hne].
      * rewrite list_lookup_insert_eq by fs_lia.
        repeat case_bool_decide; try done; lia.
      * rewrite list_lookup_insert_ne by done.
        repeat case_bool_decide; try done; lia.
    + apply Z.ltb_ge in E. exists fb. split; [done|]. split; [done|].
      intros j. case_bool_decide; [lia | done].
Qed.

Lemma copy_loop_spec n src : ∀ i dst,
  0 ≤ i → frame_sized src → frame_sized dst → i + Z.of_nat n ≤ FRAME_SIZE →
  ∃ dst', copy_loop n i src dst = Ok dst' ∧ frame_sized dst' ∧
          ∀ j : nat, dst' !! j =
            if bool_decide (i ≤ Z.of_nat j < i + Z.of_nat n) then src !! j else dst !! j.
Proof.
  induction n as [|n IH]; intros i dst Hi Hsrc Hdst Hn.
  - exists dst. split; [done|]. split; [done|].
    intros j. case_bool_decide; [lia | done].
  - simpl copy_loop.
    destruct (load_in_range src i) as (v & -> & Hv); [fs_lia|]. simpl.
    rewrite store_in_range by fs_lia. simpl.
    destruct (IH (i + 1) (<[Z.to_nat i := v]> dst)) as (dst' & Hrun & Hlen & Hlk);
      [lia | done | unfold frame_sized; by rewrite length_insert | lia |].
    exists dst'. rewrite Hrun. split; [done|]. split; [done|].
    intros j. rewrite Hlk.
    destruct (decide (j = Z.to_nat i)) as [-> | Hne].
    + rewrite list_lookup_insert_eq by fs_lia.
      repeat case_bool_decide; try done; lia.
    + rewrite list_lookup_insert_ne by done.
      repeat case_bool_decide; try done; lia.
Qed.

(** The two whole-frame copies of [decompress_frame] make the destination
    equal to the source. *)
Lemma copy_frame src dst :
  frame_sized src → frame_sized dst →
  copy_loop (Z.to_nat FRAME_SIZE) 0 src dst = Ok src.
Proof.
  intros Hsrc Hdst.
  destruct (copy_loop_spec (Z.to_nat FRAME_SIZE) src 0 dst) as (dst' & -> & Hlen & Hlk);
    [lia | done | done | fs_lia |].
  f_equal. apply list_eq. intros j. rewrite Hlk.
  case_bool_decide as Hj; [done|].
  rewrite !lookup_ge_None_2; [done | fs_lia | fs_lia].
Qed.

(** ** Opcodes *)

Lemma land_15_pixel o : pixel (Z.land o 15).
Proof.
  unfold pixel. change (Z.land o 15) with (Z.land o (Z.ones 4)).
  rewrite Z.land_ones by lia. change (2 ^ 4) with 16.
  pose proof (Z.mod_pos_bound o 16). lia.
Qed.

Lemma paint_spec count st :
  0 ≤ cursor st → frame_sized (pixels st) → 0 ≤ count →
  ∃ st', paint count st = Ok st' ∧
    cursor st' = Z.max (cursor st) (Z.min (cursor st + count) FRAME_SIZE) ∧
    current_color st' = current_color st ∧
    frame_sized (pixels st') ∧
    ∀ j : nat, pixels st' !! j =
      if bool_decide (cursor st ≤ Z.of_nat j < Z.min (cursor st + count) FRAME_SIZE)
      then Some (current_color st) else pixels st !! j.
Proof.
  intros Hc Hfb Hcount. unfold paint.
  destruct (write_run_spec (Z.to_nat count) (current_color st) (cursor st) (pixels st))
    as (fb' & -> & Hlen & Hlk); [done | done |].
  rewrite Z2Nat.id in * by done. simpl. eexists. split; [done|]. simpl.
  repeat split; done.
Qed.

Lemma opcode_loop_step op n buf base i st o st' :
  cursor st < FRAME_SIZE → load buf (base + i) = Ok o → o ≠ 255 → op o st = Ok st' →
  opcode_loop op (S n) buf base i st = opcode_loop op n buf base (i + 1) st'.
Proof.
  intros Hc Hload Ho Hop. simpl.
  rewrite (proj2 (Z.ltb_lt _ _) Hc), Hload. simpl.
  rewrite (proj2 (Z.eqb_neq _ _) Ho), Hop. done.
Qed.

(** An invariant that every opcode keeps while the cursor is inside the frame
    holds when the loop ends, and the loop ends without a fault when the
    segment lies inside the opcode array. *)
Lemma opcode_loop_inv op (I : rle_state → Prop) :
  (∀ o st, I st → cursor st < FRAME_SIZE → ∃ st', op o st = Ok st' ∧ I st') →
  ∀ n buf base i st,
    I st → 0 ≤ base + i → base + i + Z.of_nat n ≤ Z.of_nat (length buf) →
    ∃ st', opcode_loop op n buf base i st = Ok st' ∧ I st'.
Proof.
  intros Hop. induction n as [|n IH]; intros buf base i st HI Hlo Hhi; [by exists st|].
  simpl. destruct (cursor st <? FRAME_SIZE) eqn:E; [|by exists st].
  apply Z.ltb_lt in E.
  destruct (load_in_range buf (base + i)) as (o & -> & _); [lia|]. simpl.
  destruct (o =? 255); [by exists st|].
  destruct (Hop o st HI E) as (st1 & -> & HI1). simpl.
  replace (base + (i + 1)) with (base + i + 1) in * by lia.
  apply IH; [done | lia | lia].
Qed.

(** A segment without opcodes leaves the state as it is. *)
Lemma opcode_loop_empty op buf base opcode_len st :
  opcode_len ≤ 0 → opcode_loop op (Z.to_nat opcode_len) buf base 0 st = Ok st.
Proof. intros H. by replace (Z.to_nat opcode_len) with 0%nat by lia. Qed.

Lemma baseline_op_inv o st :
  baseline_inv st → cursor st < FRAME_SIZE →
  ∃ st', baseline_op o st = Ok st' ∧ baseline_inv st'.
Proof.
  intros (Hc & Hfb & Hcol & Hpx) _. unfold baseline_op.
  pose proof (land_15_pixel o) as Hlow. unfold pixel in Hlow.
  assert (∀ count, 0 ≤ count →
            ∃ st', paint count st = Ok st' ∧ baseline_inv st') as Hpaint.
  { intros count Hcount.
    destruct (paint_spec count st) as (st' & -> & Hc' & Hcol' & Hfb' & Hlk);
      [lia | done | done |].
    exists st'. split; [done|].
    split; [fs_lia|]. split; [done|]. split; [by rewrite Hcol'|].
    intros j p Hj. rewrite Hlk. case_bool_decide.
    - by intros [= <-].
    - apply Hpx. lia. }
  destruct (Z.land o 240 =? 0).
  { eexists. split; [done|].
    split; [done|]. split; [done|]. split; [apply land_15_pixel | done]. }
  destruct (Z.land o 240 =? 32); [apply Hpaint; lia|].
  destruct (Z.land o 240 =? 48); [apply Hpaint; lia|].
  eexists. split; [done|]. done.
Qed.

Lemma delta_op_inv o st :
  delta_inv st → cursor st < FRAME_SIZE →
  ∃ st', delta_op o st = Ok st' ∧ delta_inv st'.
Proof.
  intros (Hc & Hfb) Hlt. unfold delta_op.
  pose proof (land_15_pixel o) as Hlow. unfold pixel in Hlow.
  assert (∀ count, 0 ≤ count →
            ∃ st', paint count st = Ok st' ∧ delta_inv st') as Hpaint.
  { intros count Hcount.
    destruct (paint_spec count st) as (st' & -> & Hc' & _ & Hfb' & _);
      [lia | done | done |].
    exists st'. split; [done|]. split; [fs_lia | done]. }
  assert (∀ count, 0 ≤ count ≤ 1024 → delta_inv (skip count st)) as Hskip.
  { intros count Hcount. split; [simpl; fs_lia | done]. }
  destruct (Z.land o 240 =? 0); [eexists; split; [done|]; by split|].
  destruct (Z.land o 240 =? 16); [eexists; split; [done|]; apply Hskip; lia|].
  destruct (Z.land o 240 =? 32); [apply Hpaint; lia|].
  destruct (Z.land o 240 =? 48); [eexists; split; [done|]; apply Hskip; lia|].
  destruct (Z.land o 240 =? 64); [apply Hpaint; lia|].
  destruct (Z.land o 240 =? 80); [eexists; split; [done|]; apply Hskip; lia|].
  eexists. split; [done|]. by split.
Qed.

Lemma delta_op_pixel_inv o st :
  delta_pixel_inv st → cursor st < FRAME_SIZE →
  ∃ st', delta_op o st = Ok st' ∧ delta_pixel_inv st'.
Proof.
  intros (Hinv & Hcol & Hpx) Hlt.
  destruct (delta_op_inv o st Hinv Hlt) as (st' & Hrun & Hinv').
  exists st'. split; [done|]. split; [done|].
  destruct Hinv as (Hc & Hfb). unfold delta_op in Hrun.
  assert (∀ count, 0 ≤ count → paint count st = Ok st' →
            pixel (current_color st') ∧ Forall pixel (pixels st')) as Hpaint.
  { intros count Hcount Hp.
    destruct (paint_spec count st) as (st1 & Hp1 & _ & Hcol' & _ & Hlk);
      [lia | done | done |].
    rewrite Hp in Hp1. injection Hp1 as <-. split; [by rewrite Hcol'|].
    apply Forall_lookup. intros j p. rewrite Hlk. case_bool_decide.
    - by intros [= <-].
    - by apply (proj1 (Forall_lookup _ _) Hpx). }
  pose proof (land_15_pixel o) as Hlow. unfold pixel in Hlow.
  destruct (Z.land o 240 =? 0).
  { injection Hrun as <-. split; [apply land_15_pixel | done]. }
  destruct (Z.land o 240 =? 16); [by injection Hrun as <-|].
  destruct (Z.land o 240 =? 32); [eapply Hpaint; [|done]; lia|].
  destruct (Z.land o 240 =? 48); [by injection Hrun as <-|].
  destruct (Z.land o 240 =? 64); [eapply Hpaint; [|done]; lia|].
  destruct (Z.land o 240 =? 80); [by injection Hrun as <-|].
  by injection Hrun as <-.
Qed.

(** ** [decompress_frame] *)

(** Frame 0: the opcode loop, then the zero fill from the cursor on; the
    result is also saved as the previous frame. *)
Lemma decompress_frame_baseline buf base opcode_len m st :
  frame_sized (prev_frame_buffer m) →
  baseline_pass buf base opcode_len (frame_buffer m) = Ok st →
  0 ≤ cursor st → frame_sized (pixels st) →
  ∃ fb, decompress_frame 0 buf base opcode_len m
          = Ok {| frame_buffer := fb; prev_frame_buffer := fb |} ∧
        frame_sized fb ∧
        ∀ j : nat, fb !! j =
          if bool_decide (cursor st ≤ Z.of_nat j < FRAME_SIZE) then Some 0
          else pixels st !! j.
Proof.
  intros Hprev Hpass Hc Hfb. unfold decompress_frame.
  change (0 =? 0) with true. cbv iota. rewrite Hpass. ok_step.
  destruct (fill_loop_spec (Z.to_nat FRAME_SIZE) (cursor st) (pixels st))
    as (fb & -> & Hlen & Hlk); [done | done | lia |].
  ok_step. rewrite copy_frame by done. ok_step. by exists fb.
Qed.

(** Frames 1-11: the previous frame is copied, the opcode loop runs on the
    copy, and the result is saved as the previous frame. *)
Lemma decompress_frame_delta frame_index buf base opcode_len m st :
  frame_index ≠ 0 →
  frame_sized (frame_buffer m) → frame_sized (prev_frame_buffer m) →
  delta_pass buf base opcode_len (prev_frame_buffer m) = Ok st →
  frame_sized (pixels st) →
  decompress_frame frame_index buf base opcode_len m
    = Ok {| frame_buffer := pixels st; prev_frame_buffer := pixels st |}.
Proof.
  intros Hidx Hfb Hprev Hpass Hst. unfold decompress_frame.
  rewrite (proj2 (Z.eqb_neq _ _) Hidx), copy_frame by done. ok_step.
  rewrite Hpass. ok_step. rewrite copy_frame by done. by ok_step.
Qed.

Lemma baseline_pass_inv buf base opcode_len fb :
  0 ≤ base → 0 ≤ opcode_len → base + opcode_len ≤ Z.of_nat (length buf) →
  frame_sized fb →
  ∃ st, baseline_pass buf base opcode_len fb = Ok st ∧ baseline_inv st.
Proof.
  intros Hbase Hlen Hbuf Hfb.
  apply (opcode_loop_inv baseline_op baseline_inv baseline_op_inv); [|lia|lia].
  unfold baseline_inv, pixel. cbn [cursor current_color pixels].
  split; [fs_lia|]. split; [done|]. split; [lia|]. intros; lia.
Qed.

Lemma delta_pass_inv buf base opcode_len fb :
  0 ≤ base → 0 ≤ opcode_len → base + opcode_len ≤ Z.of_nat (length buf) →
  frame_sized fb →
  ∃ st, delta_pass buf base opcode_len fb = Ok st ∧ delta_inv st.
Proof.
  intros Hbase Hlen Hbuf Hfb.
  apply (opcode_loop_inv delta_op delta_inv delta_op_inv); [|lia|lia].
  unfold delta_inv. cbn [cursor pixels]. split; [fs_lia | done].
Qed.

Lemma delta_pass_pixel_inv buf base opcode_len fb :
  0 ≤ base → 0 ≤ opcode_len → base + opcode_len ≤ Z.of_nat (length buf) →
  frame_sized fb → Forall pixel fb →
  ∃ st, delta_pass buf base opcode_len fb = Ok st ∧ delta_pixel_inv st.
Proof.
  intros Hbase Hlen Hbuf Hfb Hpx.
  apply (opcode_loop_inv delta_op delta_pixel_inv delta_op_pixel_inv); [|lia|lia].
  unfold delta_pixel_inv, delta_inv, pixel. cbn [cursor current_color pixels].
  split; [split; [fs_lia | done]|]. split; [lia | done].
Qed.

(** C1 (as amended).  For every opcode segment inside the opcode array and
    every state of the two frame buffers, [decompress_frame] finishes without
    any access outside an array, so no write goes beyond index 4095.  A
    repeat opcode clamps its writes and the cursor at 4096.  The cursor of
    frame 0 stays in [0, 4096]; the cursor of a delta frame stays in
    [0, 4096 + 1023], because a skip opcode adds its whole count.  The bound
    holds for every segment length, hence after every opcode of a segment. *)
Theorem decompress_frame_in_bounds (frame_index : Z) (buf : list Z)
    (base opcode_len : Z) (m : frames) :
  0 ≤ base → 0 ≤ opcode_len → base + opcode_len ≤ Z.of_nat (length buf) →
  frame_sized (frame_buffer m) → frame_sized (prev_frame_buffer m) →
  (∃ m', decompress_frame frame_index buf base opcode_len m = Ok m' ∧
         frame_sized (frame_buffer m') ∧ frame_sized (prev_frame_buffer m')) ∧
  (∃ st, baseline_pass buf base opcode_len (frame_buffer m) = Ok st ∧
         0 ≤ cursor st ≤ FRAME_SIZE) ∧
  (∃ st, delta_pass buf base opcode_len (prev_frame_buffer m) = Ok st ∧
         0 ≤ cursor st ≤ FRAME_SIZE + 1023) ∧
  (∀ count st, 0 ≤ count → 0 ≤ cursor st ≤ FRAME_SIZE → frame_sized (pixels st) →
     ∃ st', paint count st = Ok st' ∧
            cursor st' = Z.min (cursor st + count) FRAME_SIZE ∧
            frame_sized (pixels st')).
Proof.
  intros Hbase Hlen Hbuf Hfb Hprev.
  destruct (baseline_pass_inv buf base opcode_len (frame_buffer m))
    as (st0 & Hpass0 & Hc0 & Hfb0 & _); try done.
  destruct (delta_pass_inv buf base opcode_len (prev_frame_buffer m))
    as (st1 & Hpass1 & Hc1 & Hfb1); try done.
  split; [|split; [by exists st0 | split; [by exists st1|]]].
  - destruct (decide (frame_index = 0)) as [-> | Hidx].
    + destruct (decompress_frame_baseline buf base opcode_len m st0)
        as (fb & -> & Hsz & _); try done; [lia|].
      by eexists.
    + rewrite (decompress_frame_delta frame_index buf base opcode_len m st1) by done.
      by eexists.
  - intros count st Hcount Hc Hsz.
    destruct (paint_spec count st) as (st' & Hp & Hc' & _ & Hsz' & _); try done; [lia|].
    exists st'. split; [done|]. split; [lia | done].
Qed.

Lemma decompress_frame_in_bounds_witness :
  (∃ m', decompress_frame 1 [16; 95; 95; 95; 95] 0 5
           {| frame_buffer := replicate 4096 0; prev_frame_buffer := replicate 4096 7 |}
           = Ok m' ∧
         frame_sized (frame_buffer m') ∧ frame_sized (prev_frame_buffer m')) ∧
  (∃ st, baseline_pass [16; 95; 95; 95; 95] 0 5 (replicate 4096 0) = Ok st ∧
         0 ≤ cursor st ≤ FRAME_SIZE) ∧
  (∃ st, delta_pass [16; 95; 95; 95; 95] 0 5 (replicate 4096 7) = Ok st ∧
         0 ≤ cursor st ≤ FRAME_SIZE + 1023) ∧
  (∀ count st, 0 ≤ count → 0 ≤ cursor st ≤ FRAME_SIZE → frame_sized (pixels st) →
     ∃ st', paint count st = Ok st' ∧
            cursor st' = Z.min (cursor st + count) FRAME_SIZE ∧
            frame_sized (pixels st')).
Proof.
  apply (decompress_frame_in_bounds 1 [16; 95; 95; 95; 95] 0 5
           {| frame_buffer := replicate 4096 0; prev_frame_buffer := replicate 4096 7 |}).
  - lia.
  - lia.
  - simpl. lia.
  - apply length_replicate.
  - apply length_replicate.
Defined.

(** C1 as stated fails for the cursor: in a delta frame, skip 1 followed by
    four skips of 1024 leaves the cursor at 4097. *)
Lemma cursor_exceeds_frame :
  ¬ cursor_clamped [16; 95; 95; 95; 95] 0 5 (replicate 4096 0).
Proof.
  intros H.
  specialize (H {| cursor := 4097; current_color := 0; pixels := replicate 4096 0 |}).
  assert (0 ≤ 4097 ≤ FRAME_SIZE) as Hbad; [|unfold FRAME_SIZE in Hbad; lia].
  apply H. vm_compute. reflexivity.
Qed.

(** ** The two worked examples of the specification *)

Lemma baseline_5_35 (tail : list Z) (m : frames) :
  frame_sized (frame_buffer m) → frame_sized (prev_frame_buffer m) →
  ∃ m', decompress_frame 0 ([5; 35] ++ tail) 0 2 m = Ok m' ∧
        frame_buffer m' = replicate 4 5 ++ replicate 4092 0.
Proof.
  intros Hfb Hprev.
  set (st0 := {| cursor := 0; current_color := 0; pixels := frame_buffer m |}).
  destruct (paint_spec 4 (set_color 5 st0)) as (st2 & Hp & Hc2 & _ & Hsz2 & Hlk2);
    [done | done | lia |].
  cbn [set_color cursor current_color pixels st0] in Hc2, Hlk2.
  assert (baseline_pass ([5; 35] ++ tail) 0 2 (frame_buffer m) = Ok st2) as Hpass.
  { unfold baseline_pass. change (Z.to_nat 2) with 2%nat. fold st0.
    rewrite (opcode_loop_step baseline_op 1 ([5; 35] ++ tail) 0 0 st0 5 (set_color 5 st0));
      [| cbn; fs_lia | reflexivity | lia | reflexivity].
    rewrite (opcode_loop_step baseline_op 0 ([5; 35] ++ tail) 0 (0 + 1) (set_color 5 st0) 35 st2);
      [| cbn; fs_lia | reflexivity | lia | exact Hp].
    reflexivity. }
  destruct (decompress_frame_baseline ([5; 35] ++ tail) 0 2 m st2) as (fb & Hrun & Hsz & Hlk);
    [done | done | fs_lia | done |].
  eexists. split; [exact Hrun|]. cbn [frame_buffer].
  apply list_eq. intros j. rewrite Hlk, Hlk2, Hc2.
  destruct (decide (j < 4)%nat) as [Hj|Hj].
  - rewrite lookup_app_l by (rewrite length_replicate; lia).
    rewrite lookup_replicate_2 by lia.
    repeat case_bool_decide; try done; fs_lia.
  - rewrite lookup_app_r by (rewrite length_replicate; lia).
    rewrite length_replicate.
    destruct (decide (j < 4096)%nat) as [Hj'|Hj'].
    + rewrite lookup_replicate_2 by lia.
      repeat case_bool_decide; try done; fs_lia.
    + rewrite (lookup_ge_None_2 (replicate 4092 0)) by (rewrite length_replicate; lia).
      repeat case_bool_decide; try fs_lia.
      apply lookup_ge_None_2. fs_lia.
Qed.

(** C6.  Frame 0 on the segment [0x05, 0x23] (the first two opcodes of any
    opcode array): whatever the frame buffers held before, the reconstructed
    frame has colour 5 at its first 4 positions and colour 0 at the
    remaining 4092. *)
Theorem baseline_example (tail : list Z) (m : frames) :
  frame_sized (frame_buffer m) → frame_sized (prev_frame_buffer m) →
  ∃ m', decompress_frame 0 ([5; 35] ++ tail) 0 2 m = Ok m' ∧
        frame_buffer m' = replicate 4 5 ++ replicate 4092 0.
Proof. apply baseline_5_35. Qed.

Lemma baseline_example_witness :
  ∃ m', decompress_frame 0 ([5; 35] ++ [255]) 0 2
          {| frame_buffer := replicate 4096 9; prev_frame_buffer := replicate 4096 3 |}
          = Ok m' ∧
        frame_buffer m' = replicate 4 5 ++ replicate 4092 0.
Proof.
  apply (baseline_example [255]
           {| frame_buffer := replicate 4096 9; prev_frame_buffer := replicate 4096 3 |}).
  - apply length_replicate.
  - apply length_replicate.
Defined.

(** C7.  A delta frame on the segment [0x05, 0x12, 0x22] (the first three
    opcodes of any opcode array): whatever the previous frame is, the
    reconstructed frame equals it at every position except 3, 4 and 5, which
    hold colour 5. *)
Theorem delta_example (frame_index : Z) (tail : list Z) (m : frames) :
  frame_index ≠ 0 →
  frame_sized (frame_buffer m) → frame_sized (prev_frame_buffer m) →
  ∃ m', decompress_frame frame_index ([5; 18; 34] ++ tail) 0 3 m = Ok m' ∧
        frame_sized (frame_buffer m') ∧
        ∀ j : nat, frame_buffer m' !! j =
          if bool_decide (3 ≤ j ≤ 5)%nat then Some 5 else prev_frame_buffer m !! j.
Proof.
  intros Hidx Hfb Hprev.
  set (st0 := {| cursor := 0; current_color := 0; pixels := prev_frame_buffer m |}).
  set (st1 := skip 3 (set_color 5 st0)).
  destruct (paint_spec 3 st1) as (st2 & Hp & Hc2 & _ & Hsz2 & Hlk2);
    [cbn; lia | done | lia |].
  cbn [skip set_color cursor current_color pixels st0 st1] in Hc2, Hlk2.
  assert (delta_pass ([5; 18; 34] ++ tail) 0 3 (prev_frame_buffer m) = Ok st2) as Hpass.
  { unfold delta_pass. change (Z.to_nat 3) with 3%nat. fold st0.
    rewrite (opcode_loop_step delta_op 2 ([5; 18; 34] ++ tail) 0 0 st0 5 (set_color 5 st0));
      [| cbn; fs_lia | reflexivity | lia | reflexivity].
    rewrite (opcode_loop_step delta_op 1 ([5; 18; 34] ++ tail) 0 (0 + 1) (set_color 5 st0) 18 st1);
      [| cbn; fs_lia | reflexivity | lia | reflexivity].
    rewrite (opcode_loop_step delta_op 0 ([5; 18; 34] ++ tail) 0 (0 + 1 + 1) st1 34 st2);
      [| cbn; fs_lia | reflexivity | lia | exact Hp].
    reflexivity. }
  rewrite (decompress_frame_delta frame_index ([5; 18; 34] ++ tail) 0 3 m st2) by done.
  eexists. split; [done|]. cbn [frame_buffer]. split; [done|].
  intros j. rewrite Hlk2. repeat case_bool_decide; try done; fs_lia.
Qed.

Lemma delta_example_witness :
  ∃ m', decompress_frame 1 ([5; 18; 34] ++ [255]) 0 3
          {| frame_buffer := replicate 4096 9; prev_frame_buffer := replicate 4096 3 |}
          = Ok m' ∧
        frame_sized (frame_buffer m') ∧
        ∀ j : nat, frame_buffer m' !! j =
          if bool_decide (3 ≤ j ≤ 5)%nat then Some 5 else replicate 4096 3 !! j.
Proof.
  apply (delta_example 1 [255]
           {| frame_buffer := replicate 4096 9; prev_frame_buffer := replicate 4096 3 |}).
  - lia.
  - apply length_replicate.
  - apply length_replicate.
Defined.

(** ** Pixel range *)

(** C9.  For every frame index and every opcode segment inside the opcode
    array, [decompress_frame] leaves only colour indices 0-15 in the frame
    buffer (and in the saved previous frame), provided, for a delta frame,
    that the previous frame held only such values.  Frame 0 needs no such
    assumption. *)
Theorem decompress_frame_pixels (frame_index : Z) (buf : list Z)
    (base opcode_len : Z) (m : frames) :
  0 ≤ base → 0 ≤ opcode_len → base + opcode_len ≤ Z.of_nat (length buf) →
  frame_sized (frame_buffer m) → frame_sized (prev_frame_buffer m) →
  (frame_index ≠ 0 → Forall pixel (prev_frame_buffer m)) →
  ∃ m', decompress_frame frame_index buf base opcode_len m = Ok m' ∧
        Forall pixel (frame_buffer m') ∧ Forall pixel (prev_frame_buffer m').
Proof.
  intros Hbase Hlen Hbuf Hfb Hprev Hpx.
  destruct (decide (frame_index = 0)) as [-> | Hidx].
  - destruct (baseline_pass_inv buf base opcode_len (frame_buffer m))
      as (st & Hpass & Hc & Hsz & _ & Hbelow); try done.
    destruct (decompress_frame_baseline buf base opcode_len m st)
      as (fb & -> & Hsz' & Hlk); try done; [lia|].
    assert (Forall pixel fb) as Hall.
    { apply Forall_lookup. intros j p. rewrite Hlk. case_bool_decide as Hj.
      - intros [= <-]. unfold pixel. lia.
      - intros Hp. apply (Hbelow j p); [|done].
        apply lookup_lt_Some in Hp. fs_lia. }
    by eexists.
  - destruct (delta_pass_pixel_inv buf base opcode_len (prev_frame_buffer m))
      as (st & Hpass & (_ & Hsz) & _ & Hall); try done; [by apply Hpx|].
    rewrite (decompress_frame_delta frame_index buf base opcode_len m st) by done.
    by eexists.
Qed.

Lemma decompress_frame_pixels_witness :
  ∃ m', decompress_frame 1 [5; 18; 34] 0 3
          {| frame_buffer := replicate 4096 200; prev_frame_buffer := replicate 4096 3 |}
          = Ok m' ∧
        Forall pixel (frame_buffer m') ∧ Forall pixel (prev_frame_buffer m').
Proof.
  apply (decompress_frame_pixels 1 [5; 18; 34] 0 3
           {| frame_buffer := replicate 4096 200; prev_frame_buffer := replicate 4096 3 |}).
  - lia.
  - lia.
  - simpl. lia.
  - apply length_replicate.
  - apply length_replicate.
  - intros _. apply Forall_replicate. unfold pixel. lia.
Defined.

(** ** Opcode stream *)

Lemma decode_n_snoc table n : ∀ bs ops bs1 op bs2,
  decode_n table n bs = Ok (ops, bs1) →
  huffman_decode_opcode table bs1 = Ok (op, bs2) →
  decode_n table (S n) bs = Ok (ops ++ [op], bs2).
Proof.
  induction n as [|n IH]; intros bs ops bs1 op bs2 Hn Hop.
  - injection Hn as <- <-. cbn [decode_n]. rewrite Hop. by ok_step.
  - cbn [decode_n] in Hn. apply bind_Ok in Hn as ([op0 bs0] & Hop0 & Hn).
    apply bind_Ok in Hn as ([ops0 bs0'] & Hn & [= <- <-]).
    change (decode_n table (S (S n)) bs) with
      ('(o, b1) ← huffman_decode_opcode table bs;
       '(os, b2) ← decode_n table (S n) b1; Ok (o :: os, b2)).
    rewrite Hop0. ok_step. rewrite (IH _ _ _ _ _ Hn Hop). by ok_step.
Qed.

Lemma store_append (ops buf0 : list Z) op :
  (length ops < length buf0)%nat →
  store (ops ++ drop (length ops) buf0) (Z.of_nat (length ops)) op
    = Ok ((ops ++ [op]) ++ drop (length (ops ++ [op])) buf0).
Proof.
  intros Hlt. destruct (lookup_lt_is_Some_2 buf0 (length ops) Hlt) as [x Hx].
  rewrite store_in_range by (rewrite length_app, length_drop; lia).
  f_equal. rewrite Nat2Z.id, (drop_S _ _ _ Hx).
  rewrite insert_app_r_alt, Nat.sub_diag by lia. simpl.
  rewrite length_app. simpl. rewrite Nat.add_1_r.
  by rewrite <- app_assoc.
Qed.

Section Stream.

Variable huffman_table : list HuffmanEntry.
Variable huffman_compressed_data : list Z.
Variable HUFFMAN_BITSTREAM_LEN : Z.
Variable buf0 : list Z.
Hypothesis buf0_size : Z.of_nat (length buf0) = OPCODES_CAPACITY.

Local Abbreviation loop := (decompress_loop huffman_table HUFFMAN_BITSTREAM_LEN).
Local Abbreviation inv := (stream_inv huffman_table huffman_compressed_data HUFFMAN_BITSTREAM_LEN buf0).
Local Abbreviation post := (stream_post huffman_table huffman_compressed_data HUFFMAN_BITSTREAM_LEN buf0).

Lemma decompress_loop_exit fuel st :
  (bits_read st <? HUFFMAN_BITSTREAM_LEN) && (opcode_count st <? OPCODES_CAPACITY) = false →
  loop fuel st = Ok st.
Proof. intros H. destruct fuel; simpl; by rewrite H. Qed.

Lemma decompress_loop_unfold fuel st :
  (bits_read st <? HUFFMAN_BITSTREAM_LEN) && (opcode_count st <? OPCODES_CAPACITY) = true →
  loop (S fuel) st =
  '(op, bs1) ← huffman_decode_opcode huffman_table (stream st);
  buf ← store (opcodes_buffer st) (opcode_count st) op;
  let st1 := {| stream := bs1; opcode_count := opcode_count st + 1;
                bits_read := bits_read st + 6; opcodes_buffer := buf |} in
  if (op =? 255) && (4000 <? opcode_count st1) then Ok st1 else loop fuel st1.
Proof. intros H. simpl. by rewrite H. Qed.

(** The loop is bounded by the opcode capacity, and it is left in a state
    that satisfies [stream_post]. *)
Lemma decompress_loop_post fuel : ∀ st ops,
  inv ops st → OPCODES_CAPACITY - opcode_count st ≤ Z.of_nat fuel →
  loop fuel st ≠ OutOfFuel ∧
  ∀ st', loop fuel st = Ok st' → ∃ ops', post ops' st'.
Proof.
  induction fuel as [|fuel IH];
    intros st ops (Hdec & Hcount & Hcap & Hbits & Hbuf & Hguard & Hff) Hfuel.
  - rewrite decompress_loop_exit
      by (apply andb_false_iff; right; apply Z.ltb_ge; lia).
    split; [done|]. intros st' [= <-]. exists ops.
    repeat split; try done.
    + intros i Hi Hgt. apply Hff in Hi. lia.
    + right. left. lia.
  - destruct ((bits_read st <? HUFFMAN_BITSTREAM_LEN) &&
              (opcode_count st <? OPCODES_CAPACITY)) eqn:G.
    + rewrite decompress_loop_unfold by done.
      apply andb_true_iff in G as [G1%Z.ltb_lt G2%Z.ltb_lt].
      pose proof (decode_loop_fuel huffman_table 16 0 0 (stream st)) as Hnf.
      fold (huffman_decode_opcode huffman_table (stream st)) in Hnf.
      destruct (huffman_decode_opcode huffman_table (stream st))
        as [[op bs1]| |] eqn:Hop; [| by split | by destruct Hnf; [lia|]].
      ok_step. rewrite Hbuf, Hcount, store_append by lia. ok_step. cbv zeta.
      cbn [opcode_count].
      assert (decode_n huffman_table (length (ops ++ [op]))
                (bitstream_init huffman_compressed_data) = Ok (ops ++ [op], bs1)) as Hdec'.
      { rewrite length_app, Nat.add_1_r. by eapply decode_n_snoc. }
      assert (Z.of_nat (length ops) + 1 = Z.of_nat (length (ops ++ [op]))) as Hlen'
        by len_solve.
      assert (∀ c, 0 ≤ c < Z.of_nat (length ops) + 1 → 6 * c < HUFFMAN_BITSTREAM_LEN)
        as Hguard'.
      { intros c Hc. destruct (decide (c = Z.of_nat (length ops))) as [-> | Hne];
          [lia | apply Hguard; lia]. }
      destruct ((op =? 255) && (4000 <? Z.of_nat (length ops) + 1)) eqn:B.
      * apply andb_true_iff in B as [->%Z.eqb_eq B2%Z.ltb_lt].
        split; [done|]. intros st' [= <-]. exists (ops ++ [255]).
        unfold stream_post. cbn [stream opcode_count bits_read opcodes_buffer].
        split; [done|]. split; [done|]. split; [lia|]. split; [lia|].
        split; [done|]. split; [done|]. split.
        -- intros i Hi Hgt. apply lookup_lt_Some in Hi as Hilt.
           destruct (decide (i < length ops)%nat) as [Hlt|Hge]; [|len_solve].
           rewrite lookup_app_l in Hi by done. apply Hff in Hi. lia.
        -- right. right. split; [lia|]. apply list_lookup_middle. len_solve.
      * apply (IH _ (ops ++ [op])); [|cbn [opcode_count]; lia].
        unfold stream_inv. cbn [stream opcode_count bits_read opcodes_buffer].
        split; [done|]. split; [done|]. split; [lia|]. split; [lia|].
        split; [done|]. split; [done|].
        intros i Hi. apply lookup_lt_Some in Hi as Hilt.
        destruct (decide (i < length ops)%nat) as [Hlt|Hge].
        -- rewrite lookup_app_l in Hi by done. by apply Hff.
        -- assert (i = length ops) as -> by len_solve.
           rewrite list_lookup_middle in Hi by done. injection Hi as ->.
           apply andb_false_iff in B as [B|B]; [done | apply Z.ltb_ge in B; lia].
    + rewrite decompress_loop_exit by done.
      split; [done|]. intros st' [= <-]. exists ops.
      repeat split; try done.
      * intros i Hi Hgt. apply Hff in Hi. lia.
      * apply andb_false_iff in G as [G|G]; apply Z.ltb_ge in G;
          [left; lia | right; left; lia].
Qed.

Lemma bitstream_read_bit_ok bs :
  bitstream_wf bs → bits_consumed bs < 8 * Z.of_nat (length (data bs)) →
  ∃ b bs', bitstream_read_bit bs = Ok (b, bs') ∧ bitstream_wf bs' ∧
           bits_consumed bs' = bits_consumed bs + 1 ∧ data bs' = data bs.
Proof.
  unfold bitstream_wf, bits_consumed, bitstream_read_bit. intros [Hav Hpos] Hlt.
  destruct (bits_available bs =? 0) eqn:E.
  - apply Z.eqb_eq in E.
    destruct (load_in_range (data bs) (data_pos bs)) as (v & -> & _); [lia|].
    ok_step. do 2 eexists. split; [done|].
    cbn [buffer bits_available data data_pos]. repeat split; try done; lia.
  - apply Z.eqb_neq in E. ok_step. do 2 eexists. split; [done|].
    cbn [buffer bits_available data data_pos]. repeat split; try done; lia.
Qed.

Lemma decode_loop_ok fuel : ∀ cc len bs,
  0 ≤ len ≤ 16 → 16 - len ≤ Z.of_nat fuel → bitstream_wf bs →
  bits_consumed bs + (16 - len) ≤ 8 * Z.of_nat (length (data bs)) →
  ∃ op bs', decode_loop huffman_table fuel cc len bs = Ok (op, bs') ∧
            bitstream_wf bs' ∧ bits_consumed bs' ≤ bits_consumed bs + (16 - len) ∧
            data bs' = data bs.
Proof.
  induction fuel as [|fuel IH]; intros cc len bs Hlen Hfuel Hwf Hdata.
  - rewrite decode_loop_done by lia. do 2 eexists. split; [done|].
    split; [done|]. split; [lia | done].
  - destruct (decide (len < 16)) as [Hlt|Hge].
    + rewrite decode_loop_unfold by done.
      destruct (bitstream_read_bit_ok bs) as (b & bs1 & -> & Hwf1 & Hc1 & Hd1);
        [done | lia |].
      ok_step. destruct (table_scan _ _ _) as [op|].
      * do 2 eexists. split; [done|]. split; [done|]. split; [lia | done].
      * destruct (IH (shift_in cc b) (len + 1) bs1) as (op & bs' & -> & Hwf' & Hc' & Hd');
          [lia | lia | done | rewrite Hd1; lia |].
        do 2 eexists. split; [done|]. split; [done|]. split; [lia | congruence].
    + rewrite decode_loop_done by lia. do 2 eexists. split; [done|].
      split; [done|]. split; [lia | done].
Qed.

(** With enough payload no read leaves it, and the loop returns. *)
Lemma decompress_loop_ok fuel : ∀ st,
  payload_suffices huffman_compressed_data HUFFMAN_BITSTREAM_LEN →
  0 ≤ opcode_count st → bits_read st = 6 * opcode_count st →
  Z.of_nat (length (opcodes_buffer st)) = OPCODES_CAPACITY →
  bitstream_wf (stream st) → data (stream st) = huffman_compressed_data →
  bits_consumed (stream st) ≤ 16 * opcode_count st →
  OPCODES_CAPACITY - opcode_count st ≤ Z.of_nat fuel →
  ∃ st', loop fuel st = Ok st'.
Proof.
  induction fuel as [|fuel IH]; intros st Hpay Hc Hbits Hbuf Hwf Hdata Hcons Hfuel.
  - rewrite decompress_loop_exit
      by (apply andb_false_iff; right; apply Z.ltb_ge; lia).
    by eexists.
  - destruct ((bits_read st <? HUFFMAN_BITSTREAM_LEN) &&
              (opcode_count st <? OPCODES_CAPACITY)) eqn:G;
      [|rewrite decompress_loop_exit by done; by eexists].
    rewrite decompress_loop_unfold by done.
    apply andb_true_iff in G as [G1%Z.ltb_lt G2%Z.ltb_lt].
    specialize (Hpay (opcode_count st) ltac:(lia) ltac:(lia)) as Hbytes.
    destruct (decode_loop_ok 16 0 0 (stream st)) as (op & bs1 & Hop & Hwf1 & Hc1 & Hd1);
      [lia | lia | done | rewrite Hdata; lia |].
    fold (huffman_decode_opcode huffman_table (stream st)) in Hop. rewrite Hop.
    ok_step. rewrite store_in_range by lia. ok_step. cbv zeta.
    destruct ((op =? 255) && _); [by eexists|].
    apply IH; cbn [stream opcode_count bits_read opcodes_buffer]; try done; try lia.
    + by rewrite length_insert.
    + congruence.
Qed.

Lemma stream_inv_init :
  inv [] {| stream := bitstream_init huffman_compressed_data;
            opcode_count := 0; bits_read := 0; opcodes_buffer := buf0 |}.
Proof.
  unfold stream_inv. cbn [stream opcode_count bits_read opcodes_buffer length].
  repeat split; try done; try (unfold OPCODES_CAPACITY; lia).
Qed.

End Stream.

Lemma capacity_fuel : OPCODES_CAPACITY ≤ Z.of_nat (Z.to_nat OPCODES_CAPACITY).
Proof. rewrite Z2Nat.id; unfold OPCODES_CAPACITY; lia. Qed.

(** C8.  For every table, payload and bit budget, the opcode stream loop
    ends within 8192 iterations.  When it returns, the count is between 0
    and 8192, the buffer holds the decoded opcodes at indices 0 to count-1
    and is unchanged from index count on, the stream has been read by exactly
    count decoder calls, and each call was made while the estimated bits
    (6 per opcode) were below the total bit length and the count was below
    the capacity.  It does return whenever the payload has two bytes for each
    admitted call. *)
Theorem decompress_all_opcodes_bounded (table : list HuffmanEntry) (payload : list Z)
    (total_bits : Z) (buf : list Z) :
  Z.of_nat (length buf) = OPCODES_CAPACITY →
  huffman_decompress_all_opcodes table payload total_bits buf ≠ OutOfFuel ∧
  (payload_suffices payload total_bits →
   ∃ st, huffman_decompress_all_opcodes table payload total_bits buf = Ok st) ∧
  (∀ st, huffman_decompress_all_opcodes table payload total_bits buf = Ok st →
     0 ≤ opcode_count st ≤ OPCODES_CAPACITY ∧
     (∀ c, 0 ≤ c < opcode_count st → 6 * c < total_bits ∧ c < OPCODES_CAPACITY) ∧
     ∃ ops, Z.of_nat (length ops) = opcode_count st ∧
            decode_n table (length ops) (bitstream_init payload) = Ok (ops, stream st) ∧
            opcodes_buffer st = ops ++ drop (length ops) buf).
Proof.
  intros Hbuf. unfold huffman_decompress_all_opcodes.
  pose proof capacity_fuel as Hf. revert Hf.
  generalize (Z.to_nat OPCODES_CAPACITY). intros fuel Hf.
  destruct (decompress_loop_post table payload total_bits buf Hbuf
              fuel _ [] (stream_inv_init table payload total_bits buf))
    as [Hfuel Hpost]; [cbn [opcode_count]; lia|].
  split; [exact Hfuel|]. split.
  - intros Hpay. clear Hfuel Hpost.
    apply (decompress_loop_ok table payload total_bits);
      cbn [stream opcode_count bits_read opcodes_buffer]; try done; try lia.
  - intros st Hrun. destruct (Hpost st Hrun)
      as (ops & Hdec & Hcount & Hcap & _ & Hops & Hguard & _).
    clear Hfuel Hpost Hrun.
    split; [lia|]. split; [intros c Hc; split; [by apply Hguard | lia]|].
    by exists ops.
Qed.

(** C10.  In the opcode stream, a decoded 0xFF that brings the count above
    4000 is the last opcode stored: the count returned is its index plus
    one.  A decoded 0xFF at a count of at most 4000 does not end the loop:
    whenever the loop guard still holds after it, a further opcode follows. *)
Theorem terminator_stops_stream (table : list HuffmanEntry) (payload : list Z)
    (total_bits : Z) (buf : list Z) (st : stream_state) :
  Z.of_nat (length buf) = OPCODES_CAPACITY →
  huffman_decompress_all_opcodes table payload total_bits buf = Ok st →
  ∃ ops, Z.of_nat (length ops) = opcode_count st ∧
         decode_n table (length ops) (bitstream_init payload) = Ok (ops, stream st) ∧
         opcodes_buffer st = ops ++ drop (length ops) buf ∧
         (∀ i : nat, ops !! i = Some 255 → 4000 < Z.of_nat i + 1 →
                     opcode_count st = Z.of_nat i + 1) ∧
         (∀ i : nat, ops !! i = Some 255 → Z.of_nat i + 1 ≤ 4000 →
                     6 * (Z.of_nat i + 1) < total_bits →
                     Z.of_nat i + 1 < opcode_count st).
Proof.
  intros Hbuf. unfold huffman_decompress_all_opcodes.
  pose proof capacity_fuel as Hf. revert Hf.
  generalize (Z.to_nat OPCODES_CAPACITY). intros fuel Hf Hrun.
  destruct (decompress_loop_post table payload total_bits buf Hbuf
              fuel _ [] (stream_inv_init table payload total_bits buf))
    as [_ Hpost]; [cbn [opcode_count]; lia|].
  destruct (Hpost st Hrun)
    as (ops & Hdec & Hcount & Hcap & Hbits & Hops & Hguard & Hff & Hexit).
  clear Hpost Hrun. exists ops. split; [done|]. split; [done|]. split; [done|]. split.
  - intros i Hi Hgt. symmetry. by apply Hff.
  - intros i Hi Hle Hlt. apply lookup_lt_Some in Hi.
    unfold OPCODES_CAPACITY in *. lia.
Qed.

Lemma decompress_all_opcodes_bounded_witness :
  huffman_decompress_all_opcodes sample_table [128; 0; 0; 0] 12
    (replicate (Z.to_nat 8192) 0) ≠ OutOfFuel ∧
  (payload_suffices [128; 0; 0; 0] 12 →
   ∃ st, huffman_decompress_all_opcodes sample_table [128; 0; 0; 0] 12
           (replicate (Z.to_nat 8192) 0) = Ok st) ∧
  (∀ st, huffman_decompress_all_opcodes sample_table [128; 0; 0; 0] 12
           (replicate (Z.to_nat 8192) 0) = Ok st →
     0 ≤ opcode_count st ≤ OPCODES_CAPACITY ∧
     (∀ c, 0 ≤ c < opcode_count st → 6 * c < 12 ∧ c < OPCODES_CAPACITY) ∧
     ∃ ops, Z.of_nat (length ops) = opcode_count st ∧
            decode_n sample_table (length ops) (bitstream_init [128; 0; 0; 0])
              = Ok (ops, stream st) ∧
            opcodes_buffer st = ops ++ drop (length ops) (replicate (Z.to_nat 8192) 0)).
Proof.
  apply (decompress_all_opcodes_bounded sample_table [128; 0; 0; 0] 12
           (replicate (Z.to_nat 8192) 0)).
  vm_compute. reflexivity.
Defined.

Lemma terminator_stops_stream_witness :
  ∃ ops, Z.of_nat (length ops) = 4001 ∧
         decode_n terminator_table (length ops) (bitstream_init (replicate 501 0))
           = Ok (ops, {| buffer := 0; bits_available := 7;
                         data := replicate 501 0; data_pos := 501 |}) ∧
         replicate 4001 255 ++ replicate 4191 0
           = ops ++ drop (length ops) (replicate (Z.to_nat 8192) 0) ∧
         (∀ i : nat, ops !! i = Some 255 → 4000 < Z.of_nat i + 1 →
                     4001 = Z.of_nat i + 1) ∧
         (∀ i : nat, ops !! i = Some 255 → Z.of_nat i + 1 ≤ 4000 →
                     6 * (Z.of_nat i + 1) < 30000 →
                     Z.of_nat i + 1 < 4001).
Proof.
  apply (terminator_stops_stream terminator_table (replicate 501 0) 30000
           (replicate (Z.to_nat 8192) 0)
           {| stream := {| buffer := 0; bits_available := 7;
                           data := replicate 501 0; data_pos := 501 |};
              opcode_count := 4001; bits_read := 24006;
              opcodes_buffer := replicate 4001 255 ++ replicate 4191 0 |}).
  - vm_compute. reflexivity.
  - vm_compute. reflexivity.
Defined.

(** ** Frame boundaries *)

Lemma markers_app l1 l2 : markers (l1 ++ l2) = (markers l1 + markers l2)%nat.
Proof. induction l1 as [|o l1 IH]; simpl; [done|]. rewrite IH. by destruct (o =? 255). Qed.

Lemma markers_none l : Forall (λ o, o ≠ 255) l → markers l = 0%nat.
Proof.
  induction 1 as [|o l Ho _ IH]; simpl; [done|].
  by rewrite (proj2 (Z.eqb_neq _ _) Ho), IH.
Qed.

Lemma markers_pieces pieces cur :
  Forall terminated pieces → Forall (λ o, o ≠ 255) cur →
  markers (concat pieces ++ cur) = length pieces.
Proof.
  intros Hp Hcur. rewrite markers_app, (markers_none cur Hcur), Nat.add_0_r.
  induction Hp as [|p pieces (body & -> & Hbody) _ IH]; simpl; [done|].
  rewrite !markers_app, (markers_none body Hbody), IH. simpl. lia.
Qed.

Lemma scan_loop_spec buf n : ∀ (i fc : nat) fs pieces cur,
  scan_inv buf i fc fs pieces cur → (i + n ≤ length buf)%nat →
  ∃ (i' fc' : nat) fs' pieces' cur',
    scan_loop n buf (Z.of_nat i) (Z.of_nat fc) fs = Ok (Z.of_nat fc', fs') ∧
    scan_inv buf i' fc' fs' pieces' cur' ∧
    (i' ≤ i + n)%nat ∧ (fc' = 12%nat ∨ i' = (i + n)%nat).
Proof.
  induction n as [|n IH]; intros i fc fs pieces cur Hinv Hn.
  - exists i, fc, fs, pieces, cur. split; [done|]. split; [done|]. lia.
  - destruct Hinv as (Htake & Hlen & Hterm & Hcur & Hfs & Hfc & Hi & Hslots).
    simpl scan_loop. unfold FRAME_COUNT.
    destruct (Z.of_nat fc <? 12) eqn:E.
    2:{ apply Z.ltb_ge in E. exists i, fc, fs, pieces, cur.
        split; [done|]. split; [done|]. lia. }
    apply Z.ltb_lt in E.
    destruct (load_in_range buf (Z.of_nat i)) as (o & -> & Ho); [lia|].
    rewrite Nat2Z.id in Ho. ok_step.
    assert (take (S i) buf = concat pieces ++ cur ++ [o]) as Htake'.
    { rewrite (take_S_r _ _ _ Ho), Htake. by rewrite <- app_assoc. }
    replace (Z.of_nat i + 1) with (Z.of_nat (S i)) by lia.
    destruct (o =? 255) eqn:Eo.
    + apply Z.eqb_eq in Eo. subst o.
      rewrite store_in_range by lia. ok_step.
      replace (Z.of_nat fc + 1) with (Z.of_nat (S fc)) by lia.
      rewrite Nat2Z.id.
      cut (scan_inv buf (S i) (S fc) (<[S fc := Z.of_nat (S i)]> fs)
             (pieces ++ [cur ++ [255]]) []).
      { intros Hinv'.
        destruct (IH _ _ _ _ _ Hinv') as (i' & fc' & fs' & ps' & c' & Hrun & ? & ? & Hend);
          [lia|].
        exists i', fc', fs', ps', c'. split; [done|]. split; [done|]. lia. }
      assert (concat (pieces ++ [cur ++ [255]]) = take (S i) buf) as Hcat.
      { rewrite concat_app. simpl. by rewrite app_nil_r. }
      split; [by rewrite Hcat, app_nil_r|].
      split; [len_solve|].
      split; [apply Forall_snoc; split; [done | by exists cur]|].
      split; [constructor|].
      split; [by rewrite length_insert|]. split; [lia|]. split; [lia|].
      intros k Hk. destruct (decide (k = S fc)) as [-> | Hne].
      * rewrite list_lookup_insert_eq by lia.
        rewrite firstn_all2 by len_solve.
        rewrite Hcat, length_take. do 2 f_equal. lia.
      * rewrite list_lookup_insert_ne by done.
        rewrite take_app_le by lia. apply Hslots. lia.
    + apply Z.eqb_neq in Eo.
      cut (scan_inv buf (S i) fc fs pieces (cur ++ [o])).
      { intros Hinv'.
        destruct (IH _ _ _ _ _ Hinv') as (i' & fc' & fs' & ps' & c' & Hrun & ? & ? & Hend);
          [lia|].
        exists i', fc', fs', ps', c'. split; [done|]. split; [done|]. lia. }
      split; [done|]. split; [done|]. split; [done|].
      split; [by apply Forall_snoc|]. split; [done|]. split; [done|]. split; [lia|].
      done.
Qed.

Lemma frame_segments_pieces fs rest : ∀ done_,
  (∀ k : nat, (k ≤ length (done_ ++ rest))%nat →
     fs !! k = Some (Z.of_nat (length (concat (take k (done_ ++ rest)))))) →
  frame_segments (length rest) fs (Z.of_nat (length done_))
    = Ok (segs_of (Z.of_nat (length (concat done_))) rest).
Proof.
  induction rest as [|p rest IH]; intros done_ Hslots; [done|].
  simpl frame_segments. unfold frame_segment.
  assert (load fs (Z.of_nat (length done_))
          = Ok (Z.of_nat (length (concat done_)))) as ->.
  { apply load_Ok. split; [lia|]. rewrite Nat2Z.id, Hslots by len_solve.
    by rewrite take_app_length. }
  assert (load fs (Z.of_nat (length done_) + 1)
          = Ok (Z.of_nat (length (concat (done_ ++ [p]))))) as ->.
  { apply load_Ok. split; [lia|].
    replace (Z.to_nat (Z.of_nat (length done_) + 1)) with (length (done_ ++ [p]))
      by len_solve.
    rewrite Hslots by len_solve.
    rewrite (cons_middle p done_ rest), app_assoc. by rewrite take_app_length. }
  ok_step.
  replace (Z.of_nat (length done_) + 1) with (Z.of_nat (length (done_ ++ [p])))
    by len_solve.
  rewrite (IH (done_ ++ [p])) by (by rewrite <- app_assoc).
  ok_step. simpl segs_of. do 3 f_equal.
  - rewrite concat_app. simpl. len_solve.
  - rewrite concat_app. simpl. len_solve.
Qed.

Lemma segs_of_length pos pieces : length (segs_of pos pieces) = length pieces.
Proof. revert pos. induction pieces as [|p ps IH]; intros pos; simpl; [done|]. by rewrite IH. Qed.

Lemma segs_of_chained pos pieces :
  Forall terminated pieces → chained pos (segs_of pos pieces).
Proof.
  intros H. revert pos. induction H as [|p ps (body & -> & _) _ IH]; intros pos; simpl;
    [done|].
  split; [done|]. split; [len_solve | apply IH].
Qed.

Lemma segs_of_opcodes (buf : list Z) pieces : ∀ (pre tail : list Z),
  buf = pre ++ concat pieces ++ tail →
  map (segment_opcodes buf) (segs_of (Z.of_nat (length pre)) pieces) = pieces.
Proof.
  induction pieces as [|p ps IH]; intros pre tail Hbuf; [done|].
  simpl. f_equal.
  - unfold segment_opcodes. simpl. rewrite !Nat2Z.id, Hbuf.
    rewrite drop_app_length. simpl. rewrite <- app_assoc. by rewrite take_app_length.
  - replace (Z.of_nat (length pre) + Z.of_nat (length p))
      with (Z.of_nat (length (pre ++ p))) by len_solve.
    apply (IH (pre ++ p) tail). rewrite Hbuf. simpl. by rewrite <- !app_assoc.
Qed.

(** The frame loop of [main] hands [decompress_frame] exactly the segments
    [frame_segments] lists, one per frame. *)
Lemma frame_loop_segments n : ∀ buf fs frame m out,
  frame_loop n buf fs frame m = Ok out →
  ∃ segs, frame_segments n fs frame = Ok segs ∧ length segs = n ∧ length out = n.
Proof.
  induction n as [|n IH]; intros buf fs frame m out Hrun.
  - injection Hrun as <-. by exists [].
  - cbn [frame_loop] in Hrun.
    apply bind_Ok in Hrun as ([start len] & Hseg & Hrun).
    apply bind_Ok in Hrun as (m' & Hframe & Hrun).
    apply bind_Ok in Hrun as (rest & Hrest & [= <-]).
    destruct (IH _ _ _ _ _ Hrest) as (segs & Hsegs & Hlen & Hout).
    exists ((start, len) :: segs). cbn [frame_segments]. rewrite Hseg. ok_step.
    rewrite Hsegs. ok_step. simpl. by rewrite Hlen, Hout.
Qed.

(** C3 (as amended).  When the opcode sequence holds at least twelve 0xFF
    markers, the scan of [main] finds twelve boundaries whatever the array
    [frame_starts] held before, and the frame loop gets twelve segments that
    follow one another from index 0 without overlap; each ends with its
    marker and holds no other, and their concatenation is the sequence up to
    and including the twelfth marker ([rest] is what follows it). *)
Theorem split_twelve_terminated (buf : list Z) (total_opcodes : Z) (stack : list Z) :
  length stack = 13%nat →
  0 ≤ total_opcodes ≤ Z.of_nat (length buf) →
  (12 ≤ markers (take (Z.to_nat total_opcodes) buf))%nat →
  ∃ fs segs rest,
    find_frame_boundaries buf total_opcodes stack = Ok (12, fs) ∧
    frame_segments 12 fs 0 = Ok segs ∧
    length segs = 12%nat ∧
    chained 0 segs ∧
    Forall (λ seg, terminated (segment_opcodes buf seg)) segs ∧
    take (Z.to_nat total_opcodes) buf = concat (map (segment_opcodes buf) segs) ++ rest.
Proof.
  intros Hstack Htotal Hmarkers. unfold find_frame_boundaries.
  rewrite store_in_range by lia. ok_step. change (Z.to_nat 0) with 0%nat.
  destruct (scan_loop_spec buf (Z.to_nat total_opcodes) 0 0 (<[0%nat := 0]> stack) [] [])
    as (i' & fc' & fs & pieces & cur & Hrun & Hinv & Hi' & Hend); [|lia|].
  { split; [done|]. split; [done|]. split; [constructor|]. split; [constructor|].
    split; [by rewrite length_insert|]. split; [lia|]. split; [lia|].
    intros k Hk. replace k with 0%nat by lia.
    by rewrite list_lookup_insert_eq by lia. }
  destruct Hinv as (Htake & Hlen & Hterm & Hcur & Hfs & Hfc & Hi & Hslots).
  assert (fc' = 12%nat) as ->.
  { destruct Hend as [-> | ->]; [done|].
    simpl in Htake. rewrite Htake in Hmarkers.
    rewrite (markers_pieces pieces cur Hterm Hcur) in Hmarkers. lia. }
  change (Z.of_nat 0) with 0 in Hrun. change (Z.of_nat 12) with 12 in Hrun.
  exists fs, (segs_of 0 pieces), (cur ++ drop i' (take (Z.to_nat total_opcodes) buf)).
  assert (map (segment_opcodes buf) (segs_of 0 pieces) = pieces) as Hmap.
  { apply (segs_of_opcodes buf pieces [] (cur ++ drop i' buf)). simpl.
    by rewrite <- (take_drop i' buf) at 1; rewrite Htake, <- app_assoc. }
  split; [done|]. split.
  { rewrite <- Hlen. apply (frame_segments_pieces fs pieces []). simpl.
    intros k Hk. apply Hslots. lia. }
  split; [by rewrite segs_of_length|].
  split; [by apply segs_of_chained|].
  split.
  { apply (proj1 (List.Forall_map (segment_opcodes buf) terminated _)).
    by rewrite Hmap. }
  rewrite Hmap, app_assoc, <- Htake.
  rewrite <- (take_drop i' (take (Z.to_nat total_opcodes) buf)) at 1.
  f_equal. rewrite take_take. f_equal. lia.
Qed.

Lemma split_twelve_terminated_witness :
  ∃ fs segs rest,
    find_frame_boundaries twelve_markers 26 (replicate 13 0) = Ok (12, fs) ∧
    frame_segments 12 fs 0 = Ok segs ∧
    length segs = 12%nat ∧
    chained 0 segs ∧
    Forall (λ seg, terminated (segment_opcodes twelve_markers seg)) segs ∧
    take (Z.to_nat 26) twelve_markers
      = concat (map (segment_opcodes twelve_markers) segs) ++ rest.
Proof.
  apply (split_twelve_terminated twelve_markers 26 (replicate 13 0)).
  - reflexivity.
  - simpl. lia.
  - vm_compute. lia.
Defined.

(** C3 as stated fails: with eleven markers the slot [frame_starts[12]] is
    never assigned, so the twelfth segment ends wherever the array held
    before; here the opcodes 5 and 35 after the eleventh marker are in no
    segment. *)
Lemma eleven_markers_lose_tail :
  ¬ split_reproduces eleven_markers 24 (replicate 13 0).
Proof.
  intros (fc & fs & segs & Hfind & Hsegs & Hcat).
  vm_compute in Hfind. injection Hfind as <- <-.
  vm_compute in Hsegs. injection Hsegs as <-.
  vm_compute in Hcat. discriminate Hcat.
Qed.

(** ** Segments without opcodes *)

(** Frame 0 on a segment of length zero (or less) is all zero. *)
Lemma decompress_frame_empty_baseline buf base opcode_len m :
  opcode_len ≤ 0 →
  frame_sized (frame_buffer m) → frame_sized (prev_frame_buffer m) →
  decompress_frame 0 buf base opcode_len m
    = Ok {| frame_buffer := replicate (Z.to_nat FRAME_SIZE) 0;
            prev_frame_buffer := replicate (Z.to_nat FRAME_SIZE) 0 |}.
Proof.
  intros Hlen Hfb Hprev.
  destruct (decompress_frame_baseline buf base opcode_len m
              {| cursor := 0; current_color := 0; pixels := frame_buffer m |})
    as (fb & -> & Hsz & Hlk); try done.
  { unfold baseline_pass. by apply opcode_loop_empty. }
  assert (fb = replicate (Z.to_nat FRAME_SIZE) 0) as ->; [|done].
  apply list_eq. intros j. rewrite Hlk. cbn [cursor pixels].
  case_bool_decide as Hj.
  - symmetry. apply lookup_replicate_2. lia.
  - rewrite !lookup_ge_None_2; [done | rewrite length_replicate; lia | fs_lia].
Qed.

(** A delta frame on a segment of length zero (or less) is the previous
    frame. *)
Lemma decompress_frame_empty_delta frame_index buf base opcode_len m :
  frame_index ≠ 0 → opcode_len ≤ 0 →
  frame_sized (frame_buffer m) → frame_sized (prev_frame_buffer m) →
  decompress_frame frame_index buf base opcode_len m
    = Ok {| frame_buffer := prev_frame_buffer m;
            prev_frame_buffer := prev_frame_buffer m |}.
Proof.
  intros Hidx Hlen Hfb Hprev.
  apply (decompress_frame_delta frame_index buf base opcode_len m
           {| cursor := 0; current_color := 0; pixels := prev_frame_buffer m |});
    try done.
  unfold delta_pass. by apply opcode_loop_empty.
Qed.

(** The scan assigns nothing beyond slot 0 when it meets no marker: the
    other slots keep what the array held on entry. *)
Lemma scan_loop_no_marker buf n : ∀ (i : nat) fs,
  (i + n ≤ length buf)%nat → markers (take n (drop i buf)) = 0%nat →
  scan_loop n buf (Z.of_nat i) 0 fs = Ok (0, fs).
Proof.
  induction n as [|n IH]; intros i fs Hn Hm; [done|].
  simpl scan_loop. change (0 <? FRAME_COUNT) with true. cbv iota.
  destruct (load_in_range buf (Z.of_nat i)) as (o & -> & Ho); [lia|].
  rewrite Nat2Z.id in Ho. ok_step.
  rewrite (drop_S _ _ _ Ho) in Hm. simpl in Hm.
  destruct (o =? 255); [done|].
  replace (Z.of_nat i + 1) with (Z.of_nat (S i)) by lia.
  apply IH; [lia | done].
Qed.

Lemma find_frame_boundaries_no_marker buf total_opcodes stack :
  0 ≤ total_opcodes ≤ Z.of_nat (length buf) → stack ≠ [] →
  markers (take (Z.to_nat total_opcodes) buf) = 0%nat →
  find_frame_boundaries buf total_opcodes stack = Ok (0, <[0%nat := 0]> stack).
Proof.
  intros Htotal Hstack Hm. unfold find_frame_boundaries.
  rewrite store_in_range by (destruct stack; [done | simpl; lia]). ok_step.
  apply (scan_loop_no_marker buf (Z.to_nat total_opcodes) 0); [lia | done].
Qed.

(** C2, at a failing input.  The opcode sequence [5; 35] holds no marker, and
    the slots of [frame_starts] held 2 when [main] was entered.  Slot 1 is
    never assigned, so frame 0 gets the segment of start 0 and length 2, not
    length 0, and is reconstructed as four pixels of colour 5 followed by
    zeros, not as an all-zero frame. *)
Theorem unterminated_segment_from_stack :
  find_frame_boundaries [5; 35] 2 (replicate 13 2) = Ok (0, 0 :: replicate 12 2) ∧
  frame_segment (0 :: replicate 12 2) 0 = Ok (0, 2) ∧
  ∃ m', decompress_frame 0 [5; 35] 0 2 zero_frames = Ok m' ∧
        frame_buffer m' = replicate 4 5 ++ replicate 4092 0 ∧
        frame_buffer m' ≠ replicate (Z.to_nat FRAME_SIZE) 0.
Proof.
  split; [reflexivity|]. split; [reflexivity|].
  destruct (baseline_5_35 [] zero_frames) as (m' & Hrun & Hfb);
    [apply length_replicate | apply length_replicate |].
  exists m'. split; [exact Hrun|]. split; [exact Hfb|].
  rewrite Hfb. intros Heq. apply (f_equal (λ l, l !! 0%nat)) in Heq. discriminate Heq.
Qed.

(** * Further properties of the code *)

(** ** Pixel packing *)

Lemma land_shiftl_disjoint a b n :
  0 ≤ n → 0 ≤ a < 2 ^ n → Z.land a (Z.shiftl b n) = 0.
Proof.
  intros Hn Ha. apply Z.bits_inj'. intros m Hm.
  rewrite Z.land_spec, Z.bits_0.
  destruct (Z.lt_ge_cases m n) as [Hlt|Hge].
  - rewrite Z.shiftl_spec_low by done. apply andb_false_r.
  - rewrite <- (Z.mod_small a (2 ^ n)) by done.
    rewrite Z.mod_pow2_bits_high by lia. done.
Qed.

Lemma lor_shiftl_add a b n :
  0 ≤ n → 0 ≤ a < 2 ^ n → Z.lor a (Z.shiftl b n) = a + b * 2 ^ n.
Proof.
  intros Hn Ha. pose proof (land_shiftl_disjoint a b n Hn Ha) as Hd.
  rewrite <- Z.lxor_lor, <- Z.add_nocarry_lxor by done.
  by rewrite Z.shiftl_mul_pow2.
Qed.

Lemma shl32_small x n :
  0 ≤ n → 0 ≤ x → x * 2 ^ n < 2 ^ 32 → shl32 x n = x * 2 ^ n.
Proof.
  intros Hn Hx Hlt. unfold shl32. rewrite Z.shiftl_mul_pow2 by done.
  apply Z.mod_small. split; [|done]. apply Z.mul_nonneg_nonneg; [done|].
  apply Z.pow_nonneg. lia.
Qed.

Lemma nibble_div w k : 0 ≤ k → nibble w k = (w / 2 ^ (4 * k)) mod 16.
Proof.
  intros Hk. unfold nibble. rewrite Z.shiftr_div_pow2 by lia.
  change 15 with (Z.ones 4). by rewrite Z.land_ones by lia.
Qed.

Lemma pack_sum n0 n1 n2 n3 n4 n5 n6 n7 :
  pixel n0 → pixel n1 → pixel n2 → pixel n3 →
  pixel n4 → pixel n5 → pixel n6 → pixel n7 →
  Z.lor (Z.lor (Z.lor (Z.lor (Z.lor (Z.lor (Z.lor n0 (shl32 n1 4)) (shl32 n2 8))
    (shl32 n3 12)) (shl32 n4 16)) (shl32 n5 20)) (shl32 n6 24)) (shl32 n7 28)
  = n0 + n1 * 2 ^ 4 + n2 * 2 ^ 8 + n3 * 2 ^ 12 + n4 * 2 ^ 16 + n5 * 2 ^ 20
    + n6 * 2 ^ 24 + n7 * 2 ^ 28.
Proof.
  unfold pixel. intros.
  rewrite !shl32_small by (cbn; lia).
  rewrite <- !Z.shiftl_mul_pow2 by lia.
  rewrite (lor_shiftl_add n0 n1 4) by (cbn; lia).
  rewrite (lor_shiftl_add _ n2 8) by (cbn; lia).
  rewrite (lor_shiftl_add _ n3 12) by (cbn; lia).
  rewrite (lor_shiftl_add _ n4 16) by (cbn; lia).
  rewrite (lor_shiftl_add _ n5 20) by (cbn; lia).
  rewrite (lor_shiftl_add _ n6 24) by (cbn; lia).
  rewrite (lor_shiftl_add _ n7 28) by (cbn; lia).
  by rewrite !Z.shiftl_mul_pow2 by lia.
Qed.

Lemma unpack_sum n0 n1 n2 n3 n4 n5 n6 n7 :
  pixel n0 → pixel n1 → pixel n2 → pixel n3 →
  pixel n4 → pixel n5 → pixel n6 → pixel n7 →
  unpack8 (n0 + n1 * 2 ^ 4 + n2 * 2 ^ 8 + n3 * 2 ^ 12 + n4 * 2 ^ 16 + n5 * 2 ^ 20
           + n6 * 2 ^ 24 + n7 * 2 ^ 28)
  = [n0; n1; n2; n3; n4; n5; n6; n7].
Proof.
  unfold pixel, unpack8. intros.
  rewrite !nibble_div by lia. cbn [Z.mul Pos.mul Z.pow Z.pow_pos Pos.iter].
  repeat f_equal; Z.to_euclidean_division_equations; lia.
Qed.

Lemma land_15_id p : pixel p → Z.land p 15 = p.
Proof.
  unfold pixel. intros Hp. change 15 with (Z.ones 4).
  rewrite Z.land_ones by lia. apply Z.mod_small. change (2 ^ 4) with 16. lia.
Qed.

Lemma map_land_15_id l : Forall pixel l → map (λ p, Z.land p 15) l = l.
Proof. induction 1 as [|p l Hp _ IH]; simpl; [done|]. by rewrite land_15_id, IH. Qed.

Lemma load_eight (a : list Z) (i : Z) :
  0 ≤ i → i + 8 ≤ Z.of_nat (length a) →
  ∃ p0 p1 p2 p3 p4 p5 p6 p7,
    load a i = Ok p0 ∧ load a (i + 1) = Ok p1 ∧ load a (i + 2) = Ok p2 ∧
    load a (i + 3) = Ok p3 ∧ load a (i + 4) = Ok p4 ∧ load a (i + 5) = Ok p5 ∧
    load a (i + 6) = Ok p6 ∧ load a (i + 7) = Ok p7 ∧
    take 8 (drop (Z.to_nat i) a) = [p0; p1; p2; p3; p4; p5; p6; p7].
Proof.
  intros Hi Hlen.
  destruct (load_in_range a i) as (p0 & H0 & L0); [lia|].
  destruct (load_in_range a (i + 1)) as (p1 & H1 & L1); [lia|].
  destruct (load_in_range a (i + 2)) as (p2 & H2 & L2); [lia|].
  destruct (load_in_range a (i + 3)) as (p3 & H3 & L3); [lia|].
  destruct (load_in_range a (i + 4)) as (p4 & H4 & L4); [lia|].
  destruct (load_in_range a (i + 5)) as (p5 & H5 & L5); [lia|].
  destruct (load_in_range a (i + 6)) as (p6 & H6 & L6); [lia|].
  destruct (load_in_range a (i + 7)) as (p7 & H7 & L7); [lia|].
  exists p0, p1, p2, p3, p4, p5, p6, p7. repeat (split; [done|]).
  replace (Z.to_nat (i + 1)) with (S (Z.to_nat i)) in L1 by lia.
  replace (Z.to_nat (i + 2)) with (S (S (Z.to_nat i))) in L2 by lia.
  replace (Z.to_nat (i + 3)) with (S (S (S (Z.to_nat i)))) in L3 by lia.
  replace (Z.to_nat (i + 4)) with (S (S (S (S (Z.to_nat i))))) in L4 by lia.
  replace (Z.to_nat (i + 5)) with (S (S (S (S (S (Z.to_nat i)))))) in L5 by lia.
  replace (Z.to_nat (i + 6)) with (S (S (S (S (S (S (Z.to_nat i))))))) in L6 by lia.
  replace (Z.to_nat (i + 7)) with (S (S (S (S (S (S (S (Z.to_nat i)))))))) in L7 by lia.
  rewrite (drop_S _ _ _ L0), (drop_S _ _ _ L1), (drop_S _ _ _ L2), (drop_S _ _ _ L3),
    (drop_S _ _ _ L4), (drop_S _ _ _ L5), (drop_S _ _ _ L6), (drop_S _ _ _ L7).
  done.
Qed.

(** X1.  [pack8_pixels] on eight pixels that lie inside the array returns a
    32-bit word whose nibble [k] is the low nibble of pixel [k]: unpacking
    the word gives the eight pixels masked to 4 bits, and the pixels
    themselves when they are colour indices 0-15. *)
Theorem pack8_pixels_unpack (a : list Z) (i : Z) :
  0 ≤ i → i + 8 ≤ Z.of_nat (length a) →
  ∃ w, pack8_pixels a i = Ok w ∧ 0 ≤ w < 2 ^ 32 ∧
       unpack8 w = map (λ p, Z.land p 15) (take 8 (drop (Z.to_nat i) a)) ∧
       (Forall pixel (take 8 (drop (Z.to_nat i) a)) →
        unpack8 w = take 8 (drop (Z.to_nat i) a)).
Proof.
  intros Hi Hlen.
  destruct (load_eight a i Hi Hlen)
    as (p0 & p1 & p2 & p3 & p4 & p5 & p6 & p7 &
        H0 & H1 & H2 & H3 & H4 & H5 & H6 & H7 & Htake).
  unfold pack8_pixels. rewrite H0, H1, H2, H3, H4, H5, H6, H7. ok_step.
  eexists. split; [done|].
  pose proof (land_15_pixel p0). pose proof (land_15_pixel p1).
  pose proof (land_15_pixel p2). pose proof (land_15_pixel p3).
  pose proof (land_15_pixel p4). pose proof (land_15_pixel p5).
  pose proof (land_15_pixel p6). pose proof (land_15_pixel p7).
  rewrite pack_sum by done.
  assert (unpack8 (Z.land p0 15 + Z.land p1 15 * 2 ^ 4 + Z.land p2 15 * 2 ^ 8
                   + Z.land p3 15 * 2 ^ 12 + Z.land p4 15 * 2 ^ 16
                   + Z.land p5 15 * 2 ^ 20 + Z.land p6 15 * 2 ^ 24
                   + Z.land p7 15 * 2 ^ 28)
          = map (λ p, Z.land p 15) (take 8 (drop (Z.to_nat i) a))) as Hun.
  { rewrite Htake. by apply unpack_sum. }
  split; [unfold pixel in *; cbn; lia|]. split; [done|].
  intros Hpx. by rewrite Hun, map_land_15_id.
Qed.

Lemma pack8_pixels_unpack_witness :
  ∃ w, pack8_pixels [1; 2; 3; 4; 5; 6; 7; 8; 9] 1 = Ok w ∧ 0 ≤ w < 2 ^ 32 ∧
       unpack8 w = map (λ p, Z.land p 15)
                     (take 8 (drop (Z.to_nat 1) [1; 2; 3; 4; 5; 6; 7; 8; 9])) ∧
       (Forall pixel (take 8 (drop (Z.to_nat 1) [1; 2; 3; 4; 5; 6; 7; 8; 9])) →
        unpack8 w = take 8 (drop (Z.to_nat 1) [1; 2; 3; 4; 5; 6; 7; 8; 9])).
Proof.
  apply (pack8_pixels_unpack [1; 2; 3; 4; 5; 6; 7; 8; 9] 1).
  - lia.
  - simpl. lia.
Defined.

(** ** Frame upload *)

Lemma upload_loop_spec fb (k : nat) : ∀ fuel log,
  frame_sized fb → (k ≤ 512)%nat → (k ≤ fuel)%nat →
  ∃ words,
    upload_loop fuel fb (FRAME_SIZE - 8 * Z.of_nat k) log
      = Ok (log ++ map (λ w, (VGA_STREAM_DATA, w)) words) ∧
    length words = k ∧
    Forall (λ w, 0 ≤ w < 2 ^ 32) words ∧
    concat (map unpack8 words)
      = map (λ p, Z.land p 15) (drop (Z.to_nat (FRAME_SIZE - 8 * Z.of_nat k)) fb).
Proof.
  induction k as [|k IH]; intros fuel log Hfb Hk Hfuel.
  - exists []. replace (FRAME_SIZE - 8 * Z.of_nat 0) with FRAME_SIZE by lia.
    split.
    { destruct fuel; cbn [upload_loop map]; rewrite Z.ltb_irrefl; by rewrite app_nil_r. }
    split; [done|]. split; [constructor|].
    rewrite drop_ge by fs_lia. done.
  - destruct fuel as [|fuel]; [lia|].
    set (i := FRAME_SIZE - 8 * Z.of_nat (S k)).
    assert (0 ≤ i ∧ i + 8 ≤ FRAME_SIZE) as [Hi Hi8] by (unfold i; fs_lia).
    destruct (pack8_pixels_unpack fb i) as (w & Hw & Hrange & Hun & _);
      [done | fs_lia |].
    cbn [upload_loop]. rewrite (proj2 (Z.ltb_lt _ _)) by lia. rewrite Hw. ok_step.
    unfold PIXELS_PER_WORD.
    replace (i + 8) with (FRAME_SIZE - 8 * Z.of_nat k) by (unfold i; lia).
    destruct (IH fuel (vga_write32 VGA_STREAM_DATA w log)) as (words & -> & Hlen & Hall & Hcat);
      [done | lia | lia |].
    exists (w :: words). unfold vga_write32. rewrite <- app_assoc.
    split; [done|]. split; [simpl; by rewrite Hlen|]. split; [by constructor|].
    cbn [map concat]. rewrite Hun, Hcat, <- map_app. f_equal.
    rewrite <- (take_drop 8 (drop (Z.to_nat i) fb)) at 2.
    f_equal. rewrite drop_drop. f_equal. unfold i. fs_lia.
Qed.

(** X2.  [vga_upload_frame] on a 4096-pixel frame reads nothing outside the
    frame and issues exactly 513 stores: the upload address register with
    the low 4 bits of the frame index in bits 16-19, then 512 words to the
    stream register.  Unpacking the 512 words in order gives the frame
    masked to 4 bits, hence the frame itself when its pixels are colour
    indices. *)
Theorem vga_upload_frame_stream (frame_index : Z) (fb : list Z) (log : list (Z * Z)) :
  frame_sized fb →
  ∃ words,
    vga_upload_frame frame_index fb log
      = Ok (log ++ (VGA_UPLOAD_ADDR, Z.land frame_index 15 * 65536)
                :: map (λ w, (VGA_STREAM_DATA, w)) words) ∧
    length words = 512%nat ∧
    Forall (λ w, 0 ≤ w < 2 ^ 32) words ∧
    concat (map unpack8 words) = map (λ p, Z.land p 15) fb ∧
    (Forall pixel fb → concat (map unpack8 words) = fb).
Proof.
  intros Hfb. unfold vga_upload_frame.
  pose proof (land_15_pixel frame_index) as Hf. unfold pixel in Hf.
  rewrite Z.lor_0_r, shl32_small by (cbn; lia). change (2 ^ 16) with 65536.
  assert (512 ≤ Z.to_nat FRAME_SIZE)%nat as Hfuel by (unfold FRAME_SIZE; lia).
  revert Hfuel. generalize (Z.to_nat FRAME_SIZE). intros fuel Hfuel.
  destruct (upload_loop_spec fb 512 fuel
              (vga_write32 VGA_UPLOAD_ADDR (Z.land frame_index 15 * 65536) log))
    as (words & Hrun & Hlen & Hall & Hcat); [done | lia | done |].
  change (FRAME_SIZE - 8 * Z.of_nat 512) with 0 in Hrun, Hcat.
  change (Z.to_nat 0) with 0%nat in Hcat. rewrite drop_0 in Hcat.
  exists words. rewrite Hrun. unfold vga_write32. rewrite <- app_assoc.
  split; [done|]. split; [done|]. split; [done|]. split; [done|].
  intros Hpx. by rewrite Hcat, map_land_15_id.
Qed.

Lemma vga_upload_frame_stream_witness :
  ∃ words,
    vga_upload_frame 3 (replicate 4096 5) []
      = Ok ([] ++ (VGA_UPLOAD_ADDR, Z.land 3 15 * 65536)
                :: map (λ w, (VGA_STREAM_DATA, w)) words) ∧
    length words = 512%nat ∧
    Forall (λ w, 0 ≤ w < 2 ^ 32) words ∧
    concat (map unpack8 words) = map (λ p, Z.land p 15) (replicate 4096 5) ∧
    (Forall pixel (replicate 4096 5) → concat (map unpack8 words) = replicate 4096 5).
Proof.
  apply (vga_upload_frame_stream 3 (replicate 4096 5) []).
  apply length_replicate.
Defined.

(** ** Bit reader: order and bounds *)

Lemma read_bit_refill bs b :
  bits_available bs = 0 → load (data bs) (data_pos bs) = Ok b →
  bitstream_read_bit bs
    = Ok (Z.land (Z.shiftr b 7) 1,
          {| buffer := Z.shiftl b 1 mod 2 ^ 32; bits_available := 7;
             data := data bs; data_pos := data_pos bs + 1 |}).
Proof. intros Hav Hload. unfold bitstream_read_bit. by rewrite Hav, Hload. Qed.

Lemma read_bit_buffered bs :
  bits_available bs ≠ 0 →
  bitstream_read_bit bs
    = Ok (Z.land (Z.shiftr (buffer bs) 7) 1,
          {| buffer := Z.shiftl (buffer bs) 1 mod 2 ^ 32;
             bits_available := bits_available bs - 1;
             data := data bs; data_pos := data_pos bs |}).
Proof.
  intros Hav. unfold bitstream_read_bit.
  by rewrite (proj2 (Z.eqb_neq _ _) Hav).
Qed.

Lemma read_bits_add (a : nat) : ∀ (b : nat) bs,
  read_bits (a + b) bs
  = '(l1, bs1) ← read_bits a bs; '(l2, bs2) ← read_bits b bs1; Ok (l1 ++ l2, bs2).
Proof.
  induction a as [|a IH]; intros b bs.
  - cbn [read_bits Nat.add]. ok_step. by destruct (read_bits b bs) as [[l2 bs2]| |].
  - cbn [Nat.add]. rewrite !read_bits_S.
    destruct (bitstream_read_bit bs) as [[bit bs1]| |]; [|done|done]. ok_step.
    rewrite IH. destruct (read_bits a bs1) as [[l1 bs2]| |]; [|done|done]. ok_step.
    by destruct (read_bits b bs2) as [[l2 bs3]| |].
Qed.

Lemma byte_shifts (b : Z) :
  is_byte b →
  [Z.land (Z.shiftr b 7) 1;
   Z.land (Z.shiftr (b * 2) 7) 1;
   Z.land (Z.shiftr (b * 4) 7) 1;
   Z.land (Z.shiftr (b * 8) 7) 1;
   Z.land (Z.shiftr (b * 16) 7) 1;
   Z.land (Z.shiftr (b * 32) 7) 1;
   Z.land (Z.shiftr (b * 64) 7) 1;
   Z.land (Z.shiftr (b * 128) 7) 1] = code_bits 8 b.
Proof.
  intros Hb.
  assert (Forall (λ b,
            [Z.land (Z.shiftr b 7) 1; Z.land (Z.shiftr (b * 2) 7) 1;
             Z.land (Z.shiftr (b * 4) 7) 1; Z.land (Z.shiftr (b * 8) 7) 1;
             Z.land (Z.shiftr (b * 16) 7) 1; Z.land (Z.shiftr (b * 32) 7) 1;
             Z.land (Z.shiftr (b * 64) 7) 1; Z.land (Z.shiftr (b * 128) 7) 1]
            = code_bits 8 b) (seqZ 0 256)) as Hall.
  { apply (bool_decide_unpack _). vm_compute. exact I. }
  apply (proj1 (list.Forall_forall _ _) Hall). apply elem_of_seqZ. unfold is_byte in Hb. lia.
Qed.

Lemma shl1_small x : 0 ≤ x < 2 ^ 31 → Z.shiftl x 1 mod 2 ^ 32 = x * 2.
Proof.
  intros Hx. rewrite Z.shiftl_mul_pow2 by lia. change (2 ^ 1) with 2.
  apply Z.mod_small. change (2 ^ 32) with (2 ^ 31 * 2). lia.
Qed.

Lemma read_byte bs b :
  bits_available bs = 0 → load (data bs) (data_pos bs) = Ok b → is_byte b →
  read_bits 8 bs
    = Ok (code_bits 8 b,
          {| buffer := b * 256; bits_available := 0;
             data := data bs; data_pos := data_pos bs + 1 |}).
Proof.
  intros Hav Hload Hb. rewrite <- (byte_shifts b Hb). unfold is_byte in Hb.
  assert (2 ^ 31 = 2147483648) as H31 by done.
  rewrite read_bits_S, (read_bit_refill bs b Hav Hload). ok_step.
  rewrite shl1_small by lia.
  do 7 (rewrite read_bits_S, read_bit_buffered
          by (cbn [bits_available]; lia);
        cbn [buffer bits_available data data_pos]; ok_step;
        rewrite shl1_small by lia).
  cbn [read_bits]. ok_step.
  repeat (rewrite <- Z.mul_assoc; cbn [Z.mul Pos.mul]).
  done.
Qed.

Lemma read_bytes (k : nat) : ∀ bs,
  bits_available bs = 0 → 0 ≤ data_pos bs → Forall is_byte (data bs) →
  data_pos bs + Z.of_nat k ≤ Z.of_nat (length (data bs)) →
  ∃ bs', read_bits (8 * k) bs
           = Ok (concat (map (code_bits 8)
                   (take k (drop (Z.to_nat (data_pos bs)) (data bs)))), bs') ∧
         bits_available bs' = 0 ∧ data_pos bs' = data_pos bs + Z.of_nat k ∧
         data bs' = data bs.
Proof.
  induction k as [|k IH]; intros bs Hav Hpos Hbytes Hlen.
  - exists bs. rewrite Nat.mul_0_r. cbn [read_bits take map concat].
    repeat split; try done. lia.
  - destruct (load_in_range (data bs) (data_pos bs)) as (b & Hload & Hlk); [lia|].
    assert (is_byte b) as Hb by (by eapply Forall_lookup_1).
    replace (8 * S k)%nat with (8 + 8 * k)%nat by lia.
    rewrite read_bits_add, (read_byte bs b Hav Hload Hb). ok_step.
    destruct (IH {| buffer := b * 256; bits_available := 0; data := data bs;
                    data_pos := data_pos bs + 1 |})
      as (bs' & Hrun & Hav' & Hpos' & Hdata'); cbn [bits_available data_pos data];
      try done; try lia.
    cbn [bits_available data_pos data] in Hrun, Hpos', Hdata'.
    rewrite Hrun. ok_step. exists bs'.
    split; [|split; [done | split; [lia | done]]].
    do 2 f_equal. rewrite (drop_S _ _ _ Hlk). cbn [take map concat].
    by replace (Z.to_nat (data_pos bs + 1)) with (S (Z.to_nat (data_pos bs))) by lia.
Qed.

(** X3.  A fresh bit stream yields the payload most significant bit first:
    the first [8 * k] bits read are the 8-bit expansions of the first [k]
    bytes in order, and once every byte has been consumed the next read
    falls outside the payload. *)
Theorem read_bits_msb_first (d : list Z) (k : nat) :
  Forall is_byte d → (k ≤ length d)%nat →
  ∃ bs', read_bits (8 * k) (bitstream_init d)
           = Ok (concat (map (code_bits 8) (take k d)), bs') ∧
         (k = length d → bitstream_read_bit bs' = OutOfBounds).
Proof.
  intros Hbytes Hk.
  destruct (read_bytes k (bitstream_init d)) as (bs' & Hrun & Hav & Hpos & Hdata);
    cbn [bitstream_init bits_available data_pos data]; try done; [lia|].
  cbn [bitstream_init bits_available data_pos data] in Hrun, Hpos, Hdata.
  exists bs'. split; [done|]. intros ->.
  unfold bitstream_read_bit. rewrite Hav, Hdata, Hpos. cbn [Z.eqb].
  unfold load. case_bool_decide; [|done].
  by rewrite lookup_ge_None_2 by lia.
Qed.

Lemma read_bits_msb_first_witness :
  ∃ bs', read_bits (8 * 2) (bitstream_init [128; 1])
           = Ok (concat (map (code_bits 8) (take 2 [128; 1])), bs') ∧
         (2%nat = length [128; 1] → bitstream_read_bit bs' = OutOfBounds).
Proof.
  apply (read_bits_msb_first [128; 1] 2).
  - repeat constructor; unfold is_byte; lia.
  - simpl. lia.
Defined.

Lemma bitstream_read_bit_step bs b bs' :
  bitstream_wf bs → bitstream_read_bit bs = Ok (b, bs') →
  bitstream_wf bs' ∧ bits_consumed bs' = bits_consumed bs + 1 ∧ data bs' = data bs.
Proof.
  unfold bitstream_wf, bits_consumed. intros [Hav Hpos] Hrun.
  destruct (decide (bits_available bs = 0)) as [E|E].
  - unfold bitstream_read_bit in Hrun. rewrite E in Hrun. cbn [Z.eqb] in Hrun.
    apply bind_Ok in Hrun as (bs0 & Hload & [= <- <-]).
    apply bind_Ok in Hload as (v & Hload & [= <-]).
    cbn [buffer bits_available data data_pos]. repeat split; try done; lia.
  - rewrite read_bit_buffered in Hrun by done. injection Hrun as <- <-.
    cbn [buffer bits_available data data_pos]. repeat split; try done; lia.
Qed.

Lemma bitstream_read_bit_exhausted bs :
  bitstream_wf bs → 8 * Z.of_nat (length (data bs)) ≤ bits_consumed bs →
  bits_consumed bs ≤ 8 * Z.of_nat (length (data bs)) →
  bitstream_read_bit bs = OutOfBounds.
Proof.
  unfold bitstream_wf, bits_consumed. intros [Hav Hpos] Hge Hle.
  assert (data_pos bs = Z.of_nat (length (data bs))) as Hp by lia.
  assert (bits_available bs = 0) as Hav0 by lia.
  unfold bitstream_read_bit. rewrite Hav0. cbn [Z.eqb].
  unfold load. case_bool_decide; [|done].
  by rewrite lookup_ge_None_2 by lia.
Qed.

Lemma read_bits_consumed n : ∀ bs bits bs',
  bitstream_wf bs → read_bits n bs = Ok (bits, bs') →
  bitstream_wf bs' ∧ bits_consumed bs' = bits_consumed bs + Z.of_nat n ∧
  data bs' = data bs.
Proof.
  induction n as [|n IH]; intros bs bits bs' Hwf Hrun.
  - injection Hrun as <- <-. split; [done|]. split; [lia | done].
  - apply read_bits_cons in Hrun as (b & rest & bs1 & -> & Hb & Hrest).
    destruct (bitstream_read_bit_step _ _ _ Hwf Hb) as (Hwf1 & Hc1 & Hd1).
    destruct (IH _ _ _ Hwf1 Hrest) as (Hwf' & Hc' & Hd').
    split; [done|]. split; [lia | congruence].
Qed.

(** X4.  From a reader state that lies inside the payload, reading [n] bits
    succeeds when [n] bits are left, and then consumes exactly [n]; when
    fewer are left the read ends with an access outside the payload. *)
Theorem read_bits_bounds (n : nat) (bs : BitStream) :
  bitstream_wf bs → bits_consumed bs ≤ 8 * Z.of_nat (length (data bs)) →
  (bits_consumed bs + Z.of_nat n ≤ 8 * Z.of_nat (length (data bs)) →
   ∃ bits bs', read_bits n bs = Ok (bits, bs') ∧ length bits = n ∧
               bits_consumed bs' = bits_consumed bs + Z.of_nat n) ∧
  (8 * Z.of_nat (length (data bs)) < bits_consumed bs + Z.of_nat n →
   read_bits n bs = OutOfBounds).
Proof.
  revert bs. induction n as [|n IH]; intros bs Hwf Hle.
  - split; [|lia]. intros _. exists [], bs. repeat split; try done; lia.
  - rewrite read_bits_S.
    destruct (Z.lt_ge_cases (bits_consumed bs) (8 * Z.of_nat (length (data bs))))
      as [Hlt|Hge].
    + destruct (bitstream_read_bit_ok [] bs Hwf Hlt) as (b & bs1 & Hb & Hwf1 & Hc1 & Hd1).
      rewrite Hb. ok_step.
      destruct (IH bs1 Hwf1) as [Hok Hfail]; [rewrite Hd1; lia|].
      rewrite Hd1, Hc1 in Hok, Hfail. split.
      * intros Hn. destruct Hok as (bits & bs' & -> & Hlen & Hc'); [lia|].
        ok_step. exists (b :: bits), bs'. repeat split; [simpl; lia | lia].
      * intros Hn. by rewrite Hfail by lia.
    + split; [lia|]. intros _.
      by rewrite bitstream_read_bit_exhausted by (done || lia).
Qed.

Lemma read_bits_bounds_witness :
  (bits_consumed (bitstream_init [0]) + Z.of_nat 8
     ≤ 8 * Z.of_nat (length (data (bitstream_init [0]))) →
   ∃ bits bs', read_bits 8 (bitstream_init [0]) = Ok (bits, bs') ∧ length bits = 8%nat ∧
               bits_consumed bs' = bits_consumed (bitstream_init [0]) + Z.of_nat 8) ∧
  (8 * Z.of_nat (length (data (bitstream_init [0])))
     < bits_consumed (bitstream_init [0]) + Z.of_nat 8 →
   read_bits 8 (bitstream_init [0]) = OutOfBounds).
Proof.
  apply (read_bits_bounds 8 (bitstream_init [0])).
  - unfold bitstream_wf. simpl. lia.
  - vm_compute. discriminate.
Defined.

Lemma decode_opcode_consumed (table : list HuffmanEntry) (bs bs' : BitStream) (op : Z) :
  bitstream_wf bs →
  huffman_decode_opcode table bs = Ok (op, bs') →
  bitstream_wf bs' ∧ data bs' = data bs ∧
  bits_consumed bs + 1 ≤ bits_consumed bs' ≤ bits_consumed bs + 16.
Proof.
  intros Hwf Hrun. unfold huffman_decode_opcode in Hrun.
  apply (decode_loop_inv table 16 [] bs op bs') in Hrun
    as (rest & Hread & Hlen & Hcase); [| constructor | simpl; lia].
  destruct (read_bits_consumed _ _ _ _ Hwf Hread) as (Hwf' & Hc & Hd).
  split; [done|]. split; [done|]. simpl in Hlen, Hcase.
  assert (1 ≤ length rest)%nat.
  { destruct Hcase as [(-> & _) | (Hne & _)]; [lia|]. destruct rest; [done | simpl; lia]. }
  lia.
Qed.

(** X5.  [huffman_decode_opcode] returns whenever 16 bits are left in the
    payload, whatever the table.  Every call that returns has consumed
    between 1 and 16 bits and leaves the reader in a well-formed state over
    the same payload. *)
Theorem huffman_decode_opcode_consumes (table : list HuffmanEntry) (bs : BitStream) :
  bitstream_wf bs →
  (bits_consumed bs + 16 ≤ 8 * Z.of_nat (length (data bs)) →
   is_Ok (huffman_decode_opcode table bs)) ∧
  (∀ op bs', huffman_decode_opcode table bs = Ok (op, bs') →
     bitstream_wf bs' ∧ data bs' = data bs ∧
     bits_consumed bs + 1 ≤ bits_consumed bs' ≤ bits_consumed bs + 16).
Proof.
  intros Hwf. split.
  - intros Hlen.
    destruct (decode_loop_ok table [] 16 0 0 bs) as (op & bs' & Hrun & _);
      [lia | lia | done | lia |].
    by exists (op, bs').
  - intros op bs'. by apply decode_opcode_consumed.
Qed.

Lemma huffman_decode_opcode_consumes_witness :
  (bits_consumed (bitstream_init [128; 0]) + 16
     ≤ 8 * Z.of_nat (length (data (bitstream_init [128; 0]))) →
   is_Ok (huffman_decode_opcode sample_table (bitstream_init [128; 0]))) ∧
  (∀ op bs', huffman_decode_opcode sample_table (bitstream_init [128; 0]) = Ok (op, bs') →
     bitstream_wf bs' ∧ data bs' = data (bitstream_init [128; 0]) ∧
     bits_consumed (bitstream_init [128; 0]) + 1 ≤ bits_consumed bs'
       ≤ bits_consumed (bitstream_init [128; 0]) + 16).
Proof.
  apply (huffman_decode_opcode_consumes sample_table (bitstream_init [128; 0])).
  unfold bitstream_wf. simpl. lia.
Defined.

Lemma bitstream_init_wf d : bitstream_wf (bitstream_init d).
Proof. unfold bitstream_wf, bitstream_init. cbn [bits_available data_pos]. lia. Qed.

Lemma decode_n_consumed table n : ∀ bs ops bs',
  bitstream_wf bs → decode_n table n bs = Ok (ops, bs') →
  bitstream_wf bs' ∧
  bits_consumed bs + Z.of_nat n ≤ bits_consumed bs' ≤ bits_consumed bs + 16 * Z.of_nat n.
Proof.
  induction n as [|n IH]; intros bs ops bs' Hwf Hrun.
  - injection Hrun as <- <-. split; [done | lia].
  - cbn [decode_n] in Hrun. apply bind_Ok in Hrun as ([op bs1] & Hop & Hrun).
    apply bind_Ok in Hrun as ([ops1 bs2] & Hn & [= <- <-]).
    destruct (decode_opcode_consumed _ _ _ _ Hwf Hop) as (Hwf1 & _ & Hc1).
    destruct (IH _ _ _ Hwf1 Hn) as (Hwf2 & Hc2). split; [done | lia].
Qed.

(** ** Decoding a sequence of codewords *)

Lemma read_bits_app_inv (l1 l2 : list Z) bs bs' :
  read_bits (length l1 + length l2) bs = Ok (l1 ++ l2, bs') →
  ∃ bs1, read_bits (length l1) bs = Ok (l1, bs1) ∧
         read_bits (length l2) bs1 = Ok (l2, bs').
Proof.
  rewrite read_bits_add. intros H.
  apply bind_Ok in H as ([l1' bs1] & H1 & H).
  apply bind_Ok in H as ([l2' bs2] & H2 & [= Happ <-]).
  destruct (read_bits_spec _ _ _ _ H1) as [Hlen1 _].
  apply app_inj_1 in Happ as [-> ->]; [|done]. by exists bs1.
Qed.

Lemma codeword_shorter_no_match table (i : nat) e (k : nat) :
  prefix_free table → table !! i = Some e →
  (0 < k < length (codeword e))%nat →
  table_scan table (Z.of_nat k) (bits_value (take k (codeword e))) = None.
Proof.
  intros Hpf Hi Hk.
  destruct (table_scan table _ _) as [op|] eqn:Hscan; [exfalso | done].
  apply table_scan_Some in Hscan as (j & e' & Hj & Hlen' & Hcode' & _).
  assert (codeword e' = take k (codeword e)) as Hcw.
  { unfold codeword at 1. rewrite Hlen', Hcode', Nat2Z.id.
    rewrite <- (code_bits_value (take k (codeword e))) at 2.
    - by rewrite length_take_le by lia.
    - apply Forall_take, code_bits_is_bit. }
  destruct (decide (j = i)) as [-> | Hne].
  - rewrite Hi in Hj. injection Hj as <-.
    unfold codeword in Hk. rewrite code_bits_length in Hk. lia.
  - apply (Hpf j i e' e Hj Hi Hne). rewrite Hcw. apply prefix_take.
Qed.

Lemma decode_entry table (i : nat) e bs bs' :
  prefix_free table → table !! i = Some e → valid_codeword e →
  read_bits (length (codeword e)) bs = Ok (codeword e, bs') →
  huffman_decode_opcode table bs = Ok (opcode e, bs').
Proof.
  intros Hpf Hi [Hlen Hcode] Hread.
  assert (length (codeword e) = Z.to_nat (code_len e)) as HL
    by apply code_bits_length.
  unfold huffman_decode_opcode.
  apply (decode_loop_hit table (codeword e) [] bs bs' 16 (opcode e));
    cbn [app length]; try done.
  - intros E. rewrite E in HL. simpl in HL. lia.
  - lia.
  - lia.
  - intros k Hk. apply (codeword_shorter_no_match table i e k); [done | done | lia].
  - rewrite HL, Z2Nat.id by lia.
    assert (bits_value (codeword e) = code e) as ->.
    { apply bits_value_code. by rewrite Z2Nat.id by lia. }
    destruct (table_scan_is_Some table i e Hi) as [op Hscan]. rewrite Hscan.
    apply table_scan_Some in Hscan as (j & e' & Hj & Hlen' & Hcode' & <- & _).
    destruct (decide (j = i)) as [-> | Hne].
    + rewrite Hi in Hj. by injection Hj as <-.
    + exfalso. apply (Hpf j i e' e Hj Hi Hne).
      unfold codeword. by rewrite Hlen', Hcode'.
Qed.

(** X6.  For a prefix-free table, a stream whose next bits are the
    concatenated codewords of valid table entries decodes, call by call, to
    the opcodes of those entries in order and ends right after the last
    codeword. *)
Theorem decode_n_codewords (table : list HuffmanEntry) (es : list HuffmanEntry)
    (bs bs' : BitStream) :
  prefix_free table →
  Forall (λ e, e ∈ table ∧ valid_codeword e) es →
  read_bits (length (concat (map codeword es))) bs
    = Ok (concat (map codeword es), bs') →
  decode_n table (length es) bs = Ok (map opcode es, bs').
Proof.
  intros Hpf Hes. revert bs.
  induction Hes as [|e es [Hin Hvalid] _ IH]; intros bs Hread.
  - by injection Hread as <-.
  - cbn [map concat] in Hread. rewrite length_app in Hread.
    apply read_bits_app_inv in Hread as (bs1 & Hcw & Hrest).
    apply list_elem_of_lookup in Hin as [i Hi].
    cbn [length decode_n map].
    rewrite (decode_entry table i e bs bs1) by done. ok_step.
    rewrite (IH bs1 Hrest). by ok_step.
Qed.

Lemma decode_n_codewords_witness :
  decode_n sample_table 3 (bitstream_init [152])
    = Ok ([35; 5; 255],
          {| buffer := 4864; bits_available := 3; data := [152]; data_pos := 1 |}).
Proof.
  apply (decode_n_codewords sample_table
           [ {| code := 2; code_len := 2; opcode := 35 |};
             {| code := 0; code_len := 1; opcode := 5 |};
             {| code := 3; code_len := 2; opcode := 255 |} ]).
  - exact sample_table_prefix_free.
  - repeat constructor; try (unfold valid_codeword; simpl; lia).
  - reflexivity.
Defined.

(** ** Why the opcode stream loop stops *)

(** X7.  When [huffman_decompress_all_opcodes] returns, it has stopped for
    one of three reasons: the estimate of 6 bits per opcode has reached the
    total bit length, the count has reached 8192, or the last opcode is 0xFF
    with more than 4000 opcodes stored.  If no stored opcode is 0xFF the
    count is exactly the number of 6-bit steps in the total bit length,
    capped at 8192 (and 0 for a non-positive length).  The bits really
    consumed lie between the count and 16 times the count. *)
Theorem decompress_all_opcodes_exit (table : list HuffmanEntry) (payload : list Z)
    (total_bits : Z) (buf : list Z) (st : stream_state) :
  Z.of_nat (length buf) = OPCODES_CAPACITY →
  huffman_decompress_all_opcodes table payload total_bits buf = Ok st →
  (total_bits ≤ 6 * opcode_count st ∨ opcode_count st = OPCODES_CAPACITY ∨
   (4000 < opcode_count st ∧
    opcodes_buffer st !! Z.to_nat (opcode_count st - 1) = Some 255)) ∧
  ((∀ i : nat, Z.of_nat i < opcode_count st → opcodes_buffer st !! i ≠ Some 255) →
   opcode_count st = Z.max 0 (Z.min OPCODES_CAPACITY ((total_bits + 5) / 6))) ∧
  opcode_count st ≤ bits_consumed (stream st) ≤ 16 * opcode_count st.
Proof.
  intros Hbuf. unfold huffman_decompress_all_opcodes.
  pose proof capacity_fuel as Hf. revert Hf.
  generalize (Z.to_nat OPCODES_CAPACITY). intros fuel Hf Hrun.
  destruct (decompress_loop_post table payload total_bits buf Hbuf
              fuel _ [] (stream_inv_init table payload total_bits buf))
    as [_ Hpost]; [cbn [opcode_count]; lia|].
  destruct (Hpost st Hrun)
    as (ops & Hdec & Hcount & Hcap & Hbits & Hops & Hguard & _ & Hexit).
  clear Hpost Hrun.
  assert (∀ i : nat, Z.of_nat i < opcode_count st →
            opcodes_buffer st !! i = ops !! i) as Hlk.
  { intros i Hi. rewrite Hops. apply lookup_app_l. lia. }
  assert (total_bits ≤ 6 * opcode_count st ∨ opcode_count st = OPCODES_CAPACITY ∨
          (4000 < opcode_count st ∧
           opcodes_buffer st !! Z.to_nat (opcode_count st - 1) = Some 255)) as Hexit'.
  { destruct Hexit as [?|[?|[Hgt Hlast]]]; [left; lia | by right; left |].
    right. right. split; [done|]. rewrite Hlk by lia.
    by replace (Z.to_nat (opcode_count st - 1)) with (length ops - 1)%nat by lia. }
  split; [done|]. split.
  - intros Hnone.
    assert (total_bits ≤ 6 * opcode_count st ∨ opcode_count st = OPCODES_CAPACITY)
      as Hstop.
    { destruct Hexit' as [?|[?|[Hgt Hlast]]]; [by left | by right |].
      exfalso. apply (Hnone (Z.to_nat (opcode_count st - 1))); [lia | done]. }
    assert (opcode_count st = 0 ∨ 6 * (opcode_count st - 1) < total_bits) as Hprev.
    { destruct (decide (opcode_count st = 0)); [by left | right].
      apply Hguard. lia. }
    unfold OPCODES_CAPACITY in *.
    Z.to_euclidean_division_equations. lia.
  - destruct (decode_n_consumed table _ _ _ _ (bitstream_init_wf payload) Hdec)
      as (_ & Hc).
    assert (bits_consumed (bitstream_init payload) = 0) as Hinit by done.
    lia.
Qed.

Lemma decompress_all_opcodes_exit_witness :
  (12 ≤ 6 * 2 ∨ 2 = OPCODES_CAPACITY ∨
   (4000 < 2 ∧
    ([35; 5] ++ replicate (Z.to_nat 8190) 0) !! Z.to_nat (2 - 1) = Some 255)) ∧
  ((∀ i : nat, Z.of_nat i < 2 →
      ([35; 5] ++ replicate (Z.to_nat 8190) 0) !! i ≠ Some 255) →
   2 = Z.max 0 (Z.min OPCODES_CAPACITY ((12 + 5) / 6))) ∧
  2 ≤ bits_consumed {| buffer := 1024; bits_available := 5;
                       data := [128; 0; 0; 0]; data_pos := 1 |} ≤ 16 * 2.
Proof.
  apply (decompress_all_opcodes_exit sample_table [128; 0; 0; 0] 12
           (replicate (Z.to_nat 8192) 0)
           {| stream := {| buffer := 1024; bits_available := 5;
                           data := [128; 0; 0; 0]; data_pos := 1 |};
              opcode_count := 2; bits_read := 12;
              opcodes_buffer := [35; 5] ++ replicate (Z.to_nat 8190) 0 |}).
  - vm_compute. reflexivity.
  - vm_compute. reflexivity.
Defined.

(** ** The terminator inside a segment *)

Lemma opcode_loop_terminator op (k : nat) : ∀ (n : nat) buf base i st,
  (k ≤ n)%nat → load buf (base + i + Z.of_nat k) = Ok 255 →
  opcode_loop op n buf base i st = opcode_loop op k buf base i st.
Proof.
  induction k as [|k IH]; intros n buf base i st Hk Hload.
  - rewrite Z.add_0_r in Hload. destruct n as [|n]; [done|].
    cbn [opcode_loop]. rewrite Hload. ok_step. cbn [Z.eqb Pos.eqb].
    by destruct (cursor st <? FRAME_SIZE).
  - destruct n as [|n]; [lia|]. cbn [opcode_loop].
    destruct (cursor st <? FRAME_SIZE); [|done].
    destruct (load buf (base + i)) as [o| |]; [|done|done]. ok_step.
    destruct (o =? 255); [done|].
    destruct (op o st) as [st1| |]; [|done|done]. ok_step.
    apply IH; [lia|]. by replace (base + (i + 1) + Z.of_nat k)
      with (base + i + Z.of_nat (S k)) by lia.
Qed.

(** X8.  Opcodes after a 0xFF inside the segment have no effect:
    [decompress_frame] on a segment with 0xFF at offset [k] behaves exactly
    as on the segment cut at [k], for every frame index and every state of
    the buffers. *)
Theorem decompress_frame_stops_at_terminator (frame_index : Z) (buf : list Z)
    (base opcode_len k : Z) (m : frames) :
  0 ≤ k ≤ opcode_len → load buf (base + k) = Ok 255 →
  decompress_frame frame_index buf base opcode_len m
    = decompress_frame frame_index buf base k m.
Proof.
  intros Hk Hload. unfold decompress_frame, baseline_pass, delta_pass.
  assert (∀ op st, opcode_loop op (Z.to_nat opcode_len) buf base 0 st
                   = opcode_loop op (Z.to_nat k) buf base 0 st) as Hcut.
  { intros op st. apply opcode_loop_terminator; [lia|].
    by replace (base + 0 + Z.of_nat (Z.to_nat k)) with (base + k) by lia. }
  destruct (frame_index =? 0); [by rewrite Hcut|].
  destruct (copy_loop _ 0 (prev_frame_buffer m) (frame_buffer m)) as [fb0| |];
    [|done|done].
  ok_step. by rewrite Hcut.
Qed.

Lemma decompress_frame_stops_at_terminator_witness :
  decompress_frame 0 [5; 35; 255; 37] 0 4 zero_frames
    = decompress_frame 0 [5; 35; 255; 37] 0 2 zero_frames.
Proof.
  apply (decompress_frame_stops_at_terminator 0 [5; 35; 255; 37] 0 4 2 zero_frames).
  - lia.
  - reflexivity.
Defined.

(** ** Frame 0 as a run-length expansion *)

Lemma paint_take count st :
  0 ≤ cursor st ≤ FRAME_SIZE → frame_sized (pixels st) → 0 ≤ count →
  ∃ st', paint count st = Ok st' ∧
    cursor st' = Z.min (cursor st + count) FRAME_SIZE ∧
    current_color st' = current_color st ∧
    frame_sized (pixels st') ∧
    take (Z.to_nat (cursor st')) (pixels st')
      = take (Z.to_nat (cursor st)) (pixels st)
        ++ replicate (Z.to_nat (cursor st' - cursor st)) (current_color st).
Proof.
  intros Hc Hsz Hcount.
  destruct (paint_spec count st) as (st' & Hp & Hc' & Hcol & Hsz' & Hlk);
    [lia | done | done |].
  exists st'. split; [done|]. split; [lia|]. split; [done|]. split; [done|].
  apply list_eq. intros j.
  assert (length (take (Z.to_nat (cursor st)) (pixels st)) = Z.to_nat (cursor st))
    as Hlen by (rewrite length_take; fs_lia).
  destruct (decide (j < Z.to_nat (cursor st))%nat) as [Hj|Hj].
  - rewrite lookup_take_lt by lia. rewrite lookup_app_l by lia.
    rewrite lookup_take_lt by lia. rewrite Hlk. case_bool_decide; [lia | done].
  - destruct (decide (j < Z.to_nat (cursor st'))%nat) as [Hj'|Hj'].
    + rewrite lookup_take_lt by lia. rewrite lookup_app_r by lia.
      rewrite lookup_replicate_2 by lia. rewrite Hlk. case_bool_decide; [done | lia].
    + rewrite lookup_take_ge by lia. symmetry. apply lookup_ge_None_2.
      rewrite length_app, length_replicate. lia.
Qed.

Lemma take_frame_run (X E : list Z) (r count : nat) c (F : nat) :
  (length X + r = F)%nat → (r ≤ count)%nat →
  take F ((X ++ replicate r c) ++ E) = take F (X ++ replicate count c ++ E).
Proof.
  intros HF Hr.
  rewrite take_app_length' by (rewrite length_app, length_replicate; lia).
  rewrite <- HF, take_app_add, take_app_le by (rewrite length_replicate; lia).
  by rewrite take_replicate, Nat.min_l by lia.
Qed.

Lemma baseline_op_unfold o st :
  baseline_op o st =
  if Z.land o 240 =? 0 then Ok (set_color o st)
  else if Z.land o 240 =? 32 then paint (Z.land o 15 + 1) st
  else if Z.land o 240 =? 48 then paint ((Z.land o 15 + 1) * 16) st
  else Ok st.
Proof. done. Qed.

Lemma baseline_loop_expand (n : nat) : ∀ buf base i st,
  0 ≤ cursor st ≤ FRAME_SIZE → frame_sized (pixels st) →
  0 ≤ base + i → base + i + Z.of_nat n ≤ Z.of_nat (length buf) →
  ∃ st', opcode_loop baseline_op n buf base i st = Ok st' ∧
    0 ≤ cursor st' ≤ FRAME_SIZE ∧ frame_sized (pixels st') ∧
    take (Z.to_nat (cursor st')) (pixels st')
      = take (Z.to_nat FRAME_SIZE)
          (take (Z.to_nat (cursor st)) (pixels st)
           ++ baseline_expand (take n (drop (Z.to_nat (base + i)) buf))
                (current_color st)).
Proof.
  induction n as [|n IH]; intros buf base i st Hc Hsz Hlo Hhi.
  - exists st. split; [done|]. split; [done|]. split; [done|].
    cbn [take baseline_expand]. rewrite app_nil_r, take_take. f_equal. lia.
  - assert (length (take (Z.to_nat (cursor st)) (pixels st)) = Z.to_nat (cursor st))
      as HX by (rewrite length_take; fs_lia).
    cbn [opcode_loop]. destruct (cursor st <? FRAME_SIZE) eqn:E.
    2:{ apply Z.ltb_ge in E. exists st. split; [done|]. split; [done|]. split; [done|].
        by rewrite take_app_length' by lia. }
    apply Z.ltb_lt in E.
    destruct (load_in_range buf (base + i)) as (o & -> & Ho); [lia|]. ok_step.
    rewrite (drop_S _ _ _ Ho). cbn [take baseline_expand].
    replace (S (Z.to_nat (base + i))) with (Z.to_nat (base + (i + 1))) by lia.
    destruct (o =? 255) eqn:Eo.
    { exists st. split; [done|]. split; [done|]. split; [done|].
      rewrite app_nil_r, take_take. f_equal. lia. }
    pose proof (land_15_pixel o) as Hlow. unfold pixel in Hlow.
    assert (∀ count, 0 ≤ count →
      ∃ st', (st1 ← paint count st; opcode_loop baseline_op n buf base (i + 1) st1)
               = Ok st' ∧
        0 ≤ cursor st' ≤ FRAME_SIZE ∧ frame_sized (pixels st') ∧
        take (Z.to_nat (cursor st')) (pixels st')
          = take (Z.to_nat FRAME_SIZE)
              (take (Z.to_nat (cursor st)) (pixels st)
               ++ replicate (Z.to_nat count) (current_color st)
               ++ baseline_expand (take n (drop (Z.to_nat (base + (i + 1))) buf))
                    (current_color st))) as Hpaint.
    { intros count Hcount.
      destruct (paint_take count st) as (st1 & -> & Hc1 & Hcol1 & Hsz1 & Htake1);
        [lia | done | done |].
      ok_step.
      destruct (IH buf base (i + 1) st1) as (st' & -> & Hc' & Hsz' & Htake');
        [lia | done | lia | lia |].
      exists st'. split; [done|]. split; [done|]. split; [done|].
      rewrite Htake', Htake1, Hcol1.
      destruct (decide (cursor st + count ≤ FRAME_SIZE)) as [Hfit|Hover].
      - replace (cursor st1 - cursor st) with count by lia. by rewrite <- app_assoc.
      - apply take_frame_run; lia. }
    rewrite baseline_op_unfold.
    destruct (Z.land o 240 =? 0).
    { ok_step. destruct (IH buf base (i + 1) (set_color o st))
        as (st' & -> & Hc' & Hsz' & Htake'); [done | done | lia | lia |].
      by exists st'. }
    destruct (Z.land o 240 =? 32); [apply Hpaint; lia|].
    destruct (Z.land o 240 =? 48); [apply Hpaint; lia|].
    ok_step. destruct (IH buf base (i + 1) st)
      as (st' & -> & Hc' & Hsz' & Htake'); [done | done | lia | lia |].
    by exists st'.
Qed.

(** X9.  Frame 0 is the run-length expansion of its segment: the first 4096
    pixels of the runs the opcodes describe (up to the first 0xFF), followed
    by zeros when the runs are shorter.  The result does not depend on what
    the frame buffers held, and is also stored as the previous frame. *)
Theorem decompress_frame_baseline_expand (buf : list Z) (base opcode_len : Z)
    (m : frames) :
  0 ≤ base → 0 ≤ opcode_len → base + opcode_len ≤ Z.of_nat (length buf) →
  frame_sized (frame_buffer m) → frame_sized (prev_frame_buffer m) →
  ∃ fb, decompress_frame 0 buf base opcode_len m
          = Ok {| frame_buffer := fb; prev_frame_buffer := fb |} ∧
        fb = take (Z.to_nat FRAME_SIZE)
               (baseline_expand (segment_opcodes buf (base, opcode_len)) 0
                ++ replicate (Z.to_nat FRAME_SIZE) 0).
Proof.
  intros Hbase Hlen Hbuf Hfb Hprev.
  destruct (baseline_loop_expand (Z.to_nat opcode_len) buf base 0
              {| cursor := 0; current_color := 0; pixels := frame_buffer m |})
    as (st & Hpass & Hc & Hsz & Htake); cbn [cursor pixels]; [fs_lia | done | lia | lia |].
  cbn [cursor pixels current_color] in Htake.
  change (Z.to_nat 0) with 0%nat in Htake. rewrite take_0, app_nil_l in Htake.
  replace (base + 0) with base in Htake by lia.
  destruct (decompress_frame_baseline buf base opcode_len m st)
    as (fb & Hrun & Hsz' & Hlk); [done | done | lia | done |].
  exists fb. split; [done|]. unfold segment_opcodes. cbn [fst snd].
  set (E := baseline_expand _ 0) in *.
  assert (Z.to_nat (cursor st) = length (take (Z.to_nat FRAME_SIZE) E)) as Hcur.
  { rewrite <- Htake, length_take. fs_lia. }
  apply list_eq. intros j. rewrite Hlk.
  destruct (decide (j < Z.to_nat (cursor st))%nat) as [Hj|Hj].
  - case_bool_decide; [lia|].
    rewrite <- (lookup_take_lt (pixels st) (Z.to_nat (cursor st))) by done.
    rewrite Htake, take_app, lookup_app_l by lia. done.
  - destruct (decide (j < Z.to_nat FRAME_SIZE)%nat) as [Hj'|Hj'].
    + case_bool_decide; [|lia]. symmetry.
      rewrite take_app, lookup_app_r by lia.
      rewrite take_replicate. apply lookup_replicate_2.
      rewrite length_take in *. lia.
    + case_bool_decide; [lia|]. rewrite lookup_take_ge by lia.
      apply lookup_ge_None_2. fs_lia.
Qed.

Lemma decompress_frame_baseline_expand_witness :
  ∃ fb, decompress_frame 0 [5; 35; 255; 37] 0 4 zero_frames
          = Ok {| frame_buffer := fb; prev_frame_buffer := fb |} ∧
        fb = take (Z.to_nat FRAME_SIZE)
               (baseline_expand (segment_opcodes [5; 35; 255; 37] (0, 4)) 0
                ++ replicate (Z.to_nat FRAME_SIZE) 0).
Proof.
  apply (decompress_frame_baseline_expand [5; 35; 255; 37] 0 4 zero_frames).
  - lia.
  - lia.
  - simpl. lia.
  - apply length_replicate.
  - apply length_replicate.
Defined.

(** ** Delta frames *)

Lemma delta_op_unfold o st :
  delta_op o st =
  if Z.land o 240 =? 0 then Ok (set_color o st)
  else if Z.land o 240 =? 16 then Ok (skip (Z.land o 15 + 1) st)
  else if Z.land o 240 =? 32 then paint (Z.land o 15 + 1) st
  else if Z.land o 240 =? 48 then Ok (skip ((Z.land o 15 + 1) * 16) st)
  else if Z.land o 240 =? 64 then paint ((Z.land o 15 + 1) * 16) st
  else if Z.land o 240 =? 80 then Ok (skip ((Z.land o 15 + 1) * 64) st)
  else Ok st.
Proof. done. Qed.

(** X10.  Two calls in sequence: after any call the saved previous frame
    equals the frame just reconstructed, and a following delta call (any
    nonzero index) returns the delta pass applied to that frame. *)
Theorem decompress_frame_chain (idx1 : Z) (buf1 : list Z) (base1 len1 : Z)
    (idx2 : Z) (buf2 : list Z) (base2 len2 : Z) (m : frames) :
  0 ≤ base1 → 0 ≤ len1 → base1 + len1 ≤ Z.of_nat (length buf1) →
  0 ≤ base2 → 0 ≤ len2 → base2 + len2 ≤ Z.of_nat (length buf2) →
  frame_sized (frame_buffer m) → frame_sized (prev_frame_buffer m) →
  idx2 ≠ 0 →
  ∃ m1 st m2,
    decompress_frame idx1 buf1 base1 len1 m = Ok m1 ∧
    prev_frame_buffer m1 = frame_buffer m1 ∧
    delta_pass buf2 base2 len2 (frame_buffer m1) = Ok st ∧
    decompress_frame idx2 buf2 base2 len2 m1 = Ok m2 ∧
    frame_buffer m2 = pixels st ∧ prev_frame_buffer m2 = frame_buffer m2.
Proof.
  intros Hb1 Hl1 Hin1 Hb2 Hl2 Hin2 Hfb Hprev Hidx.
  assert (∃ fb, decompress_frame idx1 buf1 base1 len1 m
                  = Ok {| frame_buffer := fb; prev_frame_buffer := fb |} ∧
                frame_sized fb) as (fb & Hrun1 & Hsz1).
  { destruct (decide (idx1 = 0)) as [-> | Hne].
    - destruct (baseline_pass_inv buf1 base1 len1 (frame_buffer m))
        as (st0 & Hpass0 & Hc0 & Hfb0 & _); try done.
      destruct (decompress_frame_baseline buf1 base1 len1 m st0)
        as (fb & Hrun & Hsz & _); try done; [lia|]. by exists fb.
    - destruct (delta_pass_inv buf1 base1 len1 (prev_frame_buffer m))
        as (st1 & Hpass1 & Hc1 & Hfb1); try done.
      exists (pixels st1). split; [|done]. by apply decompress_frame_delta. }
  destruct (delta_pass_inv buf2 base2 len2 fb) as (st & Hpass & _ & Hsz); try done.
  exists {| frame_buffer := fb; prev_frame_buffer := fb |}, st,
         {| frame_buffer := pixels st; prev_frame_buffer := pixels st |}.
  cbn [frame_buffer prev_frame_buffer].
  split; [done|]. split; [done|]. split; [done|]. split; [|done].
  by apply decompress_frame_delta.
Qed.

Lemma decompress_frame_chain_witness :
  ∃ m1 st m2,
    decompress_frame 0 [5; 35] 0 2 zero_frames = Ok m1 ∧
    prev_frame_buffer m1 = frame_buffer m1 ∧
    delta_pass [7; 18; 34] 0 3 (frame_buffer m1) = Ok st ∧
    decompress_frame 1 [7; 18; 34] 0 3 m1 = Ok m2 ∧
    frame_buffer m2 = pixels st ∧ prev_frame_buffer m2 = frame_buffer m2.
Proof.
  apply (decompress_frame_chain 0 [5; 35] 0 2 1 [7; 18; 34] 0 3 zero_frames).
  - lia.
  - lia.
  - simpl. lia.
  - lia.
  - lia.
  - simpl. lia.
  - apply length_replicate.
  - apply length_replicate.
  - lia.
Defined.

(** X11.  A delta frame differs from the previous frame only below the
    final cursor: every pixel at or beyond the cursor is the previous
    frame's, and every pixel is either the previous frame's or a colour
    index 0-15. *)
Theorem delta_frame_footprint (frame_index : Z) (buf : list Z) (base opcode_len : Z)
    (m : frames) :
  frame_index ≠ 0 →
  0 ≤ base → 0 ≤ opcode_len → base + opcode_len ≤ Z.of_nat (length buf) →
  frame_sized (frame_buffer m) → frame_sized (prev_frame_buffer m) →
  ∃ st m',
    delta_pass buf base opcode_len (prev_frame_buffer m) = Ok st ∧
    decompress_frame frame_index buf base opcode_len m = Ok m' ∧
    (∀ j : nat, cursor st ≤ Z.of_nat j →
                frame_buffer m' !! j = prev_frame_buffer m !! j) ∧
    (∀ (j : nat) p, frame_buffer m' !! j = Some p →
                    prev_frame_buffer m !! j = Some p ∨ pixel p).
Proof.
  intros Hidx Hbase Hlen Hbuf Hfb Hprev.
  set (prev := prev_frame_buffer m).
  set (I := λ st : rle_state,
         delta_inv st ∧ pixel (current_color st) ∧
         (∀ j : nat, cursor st ≤ Z.of_nat j → pixels st !! j = prev !! j) ∧
         (∀ (j : nat) p, pixels st !! j = Some p → prev !! j = Some p ∨ pixel p)).
  assert (∀ o st, I st → cursor st < FRAME_SIZE → ∃ st', delta_op o st = Ok st' ∧ I st')
    as Hstep.
  { intros o st (Hinv & Hcol & Hbeyond & Hpx) Hlt.
    destruct (delta_op_inv o st Hinv Hlt) as (st' & Hrun & Hinv').
    exists st'. split; [done|]. split; [done|].
    destruct Hinv as (Hc & Hsz). rewrite delta_op_unfold in Hrun.
    pose proof (land_15_pixel o) as Hlow.
    assert (∀ count, 0 ≤ count → paint count st = Ok st' →
              pixel (current_color st') ∧
              (∀ j : nat, cursor st' ≤ Z.of_nat j → pixels st' !! j = prev !! j) ∧
              (∀ (j : nat) p, pixels st' !! j = Some p → prev !! j = Some p ∨ pixel p))
      as Hpaint.
    { intros count Hcount Hp.
      destruct (paint_spec count st) as (st1 & Hp1 & Hc1 & Hcol1 & _ & Hlk);
        [lia | done | done |].
      rewrite Hp in Hp1. injection Hp1 as <-.
      split; [by rewrite Hcol1|]. split.
      - intros j Hj. rewrite Hlk. case_bool_decide; [lia|]. apply Hbeyond. lia.
      - intros j p. rewrite Hlk. case_bool_decide; [|by apply Hpx].
        intros [= <-]. by right. }
    assert (∀ count, 0 ≤ count →
              pixel (current_color (skip count st)) ∧
              (∀ j : nat, cursor (skip count st) ≤ Z.of_nat j →
                          pixels (skip count st) !! j = prev !! j) ∧
              (∀ (j : nat) p, pixels (skip count st) !! j = Some p →
                              prev !! j = Some p ∨ pixel p)) as Hskip.
    { intros count Hcount. cbn [skip cursor current_color pixels].
      split; [done|]. split; [|done]. intros j Hj. apply Hbeyond. lia. }
    unfold pixel in Hlow.
    destruct (Z.land o 240 =? 0).
    { injection Hrun as <-. cbn [set_color cursor current_color pixels].
      split; [apply land_15_pixel | by split]. }
    destruct (Z.land o 240 =? 16); [injection Hrun as <-; apply Hskip; lia|].
    destruct (Z.land o 240 =? 32); [eapply Hpaint; [|done]; lia|].
    destruct (Z.land o 240 =? 48); [injection Hrun as <-; apply Hskip; lia|].
    destruct (Z.land o 240 =? 64); [eapply Hpaint; [|done]; lia|].
    destruct (Z.land o 240 =? 80); [injection Hrun as <-; apply Hskip; lia|].
    injection Hrun as <-. by split. }
  destruct (opcode_loop_inv delta_op I Hstep (Z.to_nat opcode_len) buf base 0
              {| cursor := 0; current_color := 0; pixels := prev |})
    as (st & Hpass & (_ & Hsz) & _ & Hbeyond & Hpx); [|lia|lia|].
  { unfold I, delta_inv, pixel. cbn [cursor current_color pixels].
    split; [split; [fs_lia | done]|]. split; [lia|]. split; [done|]. by left. }
  exists st, {| frame_buffer := pixels st; prev_frame_buffer := pixels st |}.
  split; [done|]. split; [by apply decompress_frame_delta|]. by split.
Qed.

Lemma delta_frame_footprint_witness :
  ∃ st m',
    delta_pass [7; 18; 34] 0 3 (prev_frame_buffer zero_frames) = Ok st ∧
    decompress_frame 1 [7; 18; 34] 0 3 zero_frames = Ok m' ∧
    (∀ j : nat, cursor st ≤ Z.of_nat j →
                frame_buffer m' !! j = prev_frame_buffer zero_frames !! j) ∧
    (∀ (j : nat) p, frame_buffer m' !! j = Some p →
                    prev_frame_buffer zero_frames !! j = Some p ∨ pixel p).
Proof.
  apply (delta_frame_footprint 1 [7; 18; 34] 0 3 zero_frames).
  - lia.
  - lia.
  - lia.
  - simpl. lia.
  - apply length_replicate.
  - apply length_replicate.
Defined.

Lemma opcode_loop_inv_on op (P : Z → Prop) (I : rle_state → Prop) :
  (∀ o st, P o → I st → cursor st < FRAME_SIZE → ∃ st', op o st = Ok st' ∧ I st') →
  ∀ n buf base i st,
    I st → 0 ≤ base + i → base + i + Z.of_nat n ≤ Z.of_nat (length buf) →
    Forall P (take n (drop (Z.to_nat (base + i)) buf)) →
    ∃ st', opcode_loop op n buf base i st = Ok st' ∧ I st'.
Proof.
  intros Hop. induction n as [|n IH]; intros buf base i st HI Hlo Hhi HP;
    [by exists st|].
  cbn [opcode_loop]. destruct (cursor st <? FRAME_SIZE) eqn:E; [|by exists st].
  apply Z.ltb_lt in E.
  destruct (load_in_range buf (base + i)) as (o & -> & Ho); [lia|]. ok_step.
  rewrite (drop_S _ _ _ Ho) in HP. cbn [take] in HP.
  apply list.Forall_cons in HP as [HPo HP].
  destruct (o =? 255); [by exists st|].
  destruct (Hop o st HPo HI E) as (st1 & -> & HI1). ok_step.
  apply IH; [done | lia | lia |].
  by replace (Z.to_nat (base + (i + 1))) with (S (Z.to_nat (base + i))) by lia.
Qed.

(** X12.  A delta segment without a repeat opcode (high nibble 2 or 4)
    reproduces the previous frame exactly: set-colour, skip and unknown
    opcodes never write a pixel. *)
Theorem delta_without_repeat (frame_index : Z) (buf : list Z) (base opcode_len : Z)
    (m : frames) :
  frame_index ≠ 0 →
  0 ≤ base → 0 ≤ opcode_len → base + opcode_len ≤ Z.of_nat (length buf) →
  frame_sized (frame_buffer m) → frame_sized (prev_frame_buffer m) →
  Forall (λ o, ¬ is_repeat o) (segment_opcodes buf (base, opcode_len)) →
  decompress_frame frame_index buf base opcode_len m
    = Ok {| frame_buffer := prev_frame_buffer m;
            prev_frame_buffer := prev_frame_buffer m |}.
Proof.
  intros Hidx Hbase Hlen Hbuf Hfb Hprev Hops.
  destruct (opcode_loop_inv_on delta_op (λ o, ¬ is_repeat o)
              (λ st, pixels st = prev_frame_buffer m)) with
      (n := Z.to_nat opcode_len) (buf := buf) (base := base) (i := 0)
      (st := {| cursor := 0; current_color := 0; pixels := prev_frame_buffer m |})
    as (st & Hpass & Hpx); try done; try lia.
  - intros o st Ho Hst _. rewrite delta_op_unfold. unfold is_repeat in Ho.
    destruct (Z.land o 240 =? 0); [by eexists|].
    destruct (Z.land o 240 =? 16); [by eexists|].
    destruct (Z.land o 240 =? 32) eqn:E32; [apply Z.eqb_eq in E32; tauto|].
    destruct (Z.land o 240 =? 48); [by eexists|].
    destruct (Z.land o 240 =? 64) eqn:E64; [apply Z.eqb_eq in E64; tauto|].
    destruct (Z.land o 240 =? 80); by eexists.
  - by replace (base + 0) with base by lia.
  - rewrite <- Hpx. apply decompress_frame_delta; try done.
    rewrite Hpx. done.
Qed.

Lemma delta_without_repeat_witness :
  decompress_frame 1 [7; 18; 95] 0 3 zero_frames
    = Ok {| frame_buffer := prev_frame_buffer zero_frames;
            prev_frame_buffer := prev_frame_buffer zero_frames |}.
Proof.
  apply (delta_without_repeat 1 [7; 18; 95] 0 3 zero_frames).
  - lia.
  - lia.
  - lia.
  - simpl. lia.
  - apply length_replicate.
  - apply length_replicate.
  - repeat constructor; intros [H|H]; vm_compute in H; discriminate H.
Defined.

(** ** The boundary scan in general *)

Lemma scan_loop_count buf (n : nat) : ∀ (i fc : nat) fs,
  (fc ≤ 12)%nat → length fs = 13%nat → (i + n ≤ length buf)%nat →
  ∃ fs',
    scan_loop n buf (Z.of_nat i) (Z.of_nat fc) fs
      = Ok (Z.of_nat (min 12 (fc + markers (take n (drop i buf)))), fs') ∧
    length fs' = 13%nat ∧
    ∀ k : nat, (k ≤ fc ∨ min 12 (fc + markers (take n (drop i buf))) < k)%nat →
               fs' !! k = fs !! k.
Proof.
  induction n as [|n IH]; intros i fc fs Hfc Hfs Hn.
  - exists fs. cbn [scan_loop take markers]. rewrite Nat.add_0_r, Nat.min_r by done.
    by repeat split.
  - cbn [scan_loop]. unfold FRAME_COUNT.
    destruct (Z.of_nat fc <? 12) eqn:E.
    2:{ apply Z.ltb_ge in E. exists fs. rewrite Nat.min_l by lia.
        assert (fc = 12%nat) as -> by lia. by repeat split. }
    apply Z.ltb_lt in E.
    destruct (load_in_range buf (Z.of_nat i)) as (o & -> & Ho); [lia|].
    rewrite Nat2Z.id in Ho. ok_step.
    rewrite (drop_S _ _ _ Ho). cbn [take markers].
    replace (Z.of_nat i + 1) with (Z.of_nat (S i)) by lia.
    destruct (o =? 255).
    + rewrite store_in_range by lia. ok_step.
      replace (Z.of_nat fc + 1) with (Z.of_nat (S fc)) by lia. rewrite Nat2Z.id.
      destruct (IH (S i) (S fc) (<[S fc := Z.of_nat (S i)]> fs))
        as (fs' & Hrun & Hlen & Hkeep); [lia | by rewrite length_insert | lia |].
      exists fs'. replace (fc + S (markers (take n (drop (S i) buf))))%nat
        with (S fc + markers (take n (drop (S i) buf)))%nat by lia.
      split; [done|]. split; [done|].
      intros k Hk. rewrite Hkeep by lia. apply list_lookup_insert_ne. lia.
    + destruct (IH (S i) fc fs) as (fs' & Hrun & Hlen & Hkeep); [lia | done | lia |].
      by exists fs'.
Qed.

Lemma piece_end_marker (pieces : list (list Z)) (k : nat) :
  Forall terminated pieces → (1 ≤ k ≤ length pieces)%nat →
  (1 ≤ length (concat (take k pieces)))%nat ∧
  concat pieces !! (length (concat (take k pieces)) - 1)%nat = Some 255.
Proof.
  intros Hterm Hk.
  destruct (lookup_lt_is_Some_2 pieces (k - 1)) as [p Hp]; [lia|].
  assert (terminated p) as (body & -> & _)
    by (eapply Forall_lookup_1; [exact Hterm | exact Hp]).
  replace k with (S (k - 1)) at 1 2 by lia.
  rewrite (take_S_r _ _ _ Hp), concat_app. cbn [concat]. rewrite app_nil_r.
  rewrite !length_app. cbn [length]. split; [lia|].
  assert (concat pieces = concat (take (k - 1) pieces)
                          ++ body ++ [255] ++ concat (drop (S (k - 1)) pieces)) as ->.
  { rewrite <- (take_drop (S (k - 1)) pieces) at 1.
    rewrite (take_S_r _ _ _ Hp), !concat_app. cbn [concat]. rewrite app_nil_r.
    by rewrite <- !app_assoc. }
  rewrite lookup_app_r by lia. rewrite lookup_app_r by lia.
  replace (length (concat (take (k - 1) pieces)) + (length body + 1) - 1
           - length (concat (take (k - 1) pieces)) - length body)%nat with 0%nat by lia.
  done.
Qed.

(** X13.  The boundary scan of [main], for any input: the frame count is
    the number of 0xFF markers among the first [total_opcodes] opcodes,
    capped at 12; slot 0 holds 0; each slot from 1 to the count holds the
    index just after a marker; every slot above the count still holds what
    the array held on entry. *)
Theorem find_frame_boundaries_count (buf : list Z) (total_opcodes : Z) (stack : list Z) :
  length stack = 13%nat →
  0 ≤ total_opcodes ≤ Z.of_nat (length buf) →
  ∃ (fc : nat) fs,
    find_frame_boundaries buf total_opcodes stack = Ok (Z.of_nat fc, fs) ∧
    fc = min 12 (markers (take (Z.to_nat total_opcodes) buf)) ∧
    length fs = 13%nat ∧
    fs !! 0%nat = Some 0 ∧
    (∀ k : nat, (1 ≤ k ≤ fc)%nat →
       ∃ e, fs !! k = Some e ∧ 1 ≤ e ≤ total_opcodes ∧
            buf !! Z.to_nat (e - 1) = Some 255) ∧
    (∀ k : nat, (fc < k)%nat → fs !! k = stack !! k).
Proof.
  intros Hstack Htotal. unfold find_frame_boundaries.
  rewrite store_in_range by lia. ok_step. change (Z.to_nat 0) with 0%nat.
  destruct (scan_loop_count buf (Z.to_nat total_opcodes) 0 0 (<[0%nat := 0]> stack))
    as (fs & Hrun & Hlen & Hkeep); [lia | by rewrite length_insert | lia |].
  destruct (scan_loop_spec buf (Z.to_nat total_opcodes) 0 0 (<[0%nat := 0]> stack) [] [])
    as (i' & fc' & fs2 & pieces & cur & Hrun2 & Hinv & Hi' & _); [|lia|].
  { split; [done|]. split; [done|]. split; [constructor|]. split; [constructor|].
    split; [by rewrite length_insert|]. split; [lia|]. split; [lia|].
    intros k Hk. replace k with 0%nat by lia.
    by rewrite list_lookup_insert_eq by lia. }
  remember (min 12 (0 + markers (take (Z.to_nat total_opcodes) (drop 0 buf)))) as c
    eqn:Hc.
  rewrite Hrun in Hrun2. injection Hrun2 as Hfc <-.
  apply Nat2Z.inj in Hfc. subst fc'.
  cbn [Nat.add] in Hc. rewrite drop_0 in Hc.
  destruct Hinv as (Htake & Hpieces & Hterm & _ & _ & _ & Hi & Hslots).
  exists c, fs. change (Z.of_nat 0) with 0 in Hrun.
  split; [done|]. split; [done|]. split; [done|]. split.
  { rewrite Hkeep by lia. by rewrite list_lookup_insert_eq by lia. }
  split.
  - intros k Hk. rewrite Hslots by lia. eexists. split; [done|].
    destruct (piece_end_marker pieces k Hterm) as [Hpos Hlast]; [lia|].
    assert (length (concat (take k pieces)) ≤ length (concat pieces))%nat as Hle.
    { rewrite <- (take_drop k pieces) at 2. rewrite concat_app, length_app. lia. }
    assert (length (concat pieces) ≤ i')%nat as Hle'.
    { apply (f_equal length) in Htake. rewrite length_take, length_app in Htake. lia. }
    split; [lia|].
    replace (Z.to_nat (Z.of_nat (length (concat (take k pieces))) - 1))
      with (length (concat (take k pieces)) - 1)%nat by lia.
    assert (take i' buf !! (length (concat (take k pieces)) - 1)%nat = Some 255) as Hin
      by (by rewrite Htake, lookup_app_l by lia).
    by apply lookup_take_Some in Hin as [Hin _].
  - intros k Hk. rewrite Hkeep by lia. apply list_lookup_insert_ne. lia.
Qed.

Lemma find_frame_boundaries_count_witness :
  ∃ (fc : nat) fs,
    find_frame_boundaries eleven_markers 24 (replicate 13 7) = Ok (Z.of_nat fc, fs) ∧
    fc = min 12 (markers (take (Z.to_nat 24) eleven_markers)) ∧
    length fs = 13%nat ∧
    fs !! 0%nat = Some 0 ∧
    (∀ k : nat, (1 ≤ k ≤ fc)%nat →
       ∃ e, fs !! k = Some e ∧ 1 ≤ e ≤ 24 ∧
            eleven_markers !! Z.to_nat (e - 1) = Some 255) ∧
    (∀ k : nat, (fc < k)%nat → fs !! k = replicate 13 7 !! k).
Proof.
  apply (find_frame_boundaries_count eleven_markers 24 (replicate 13 7)).
  - reflexivity.
  - simpl. lia.
Defined.

(** ** The animation loop *)

Lemma next_frame_cycle (k : Z) :
  0 ≤ k → next_frame (k mod 12) = (k + 1) mod 12.
Proof.
  intros Hk. unfold next_frame, FRAME_COUNT.
  pose proof (Z.mod_pos_bound k 12 ltac:(lia)) as Hm.
  rewrite (Z.mod_small (k mod 12 + 1)) by (change (2 ^ 32) with 4294967296; lia).
  destruct (k mod 12 + 1 <? 12) eqn:E.
  - apply Z.ltb_lt in E. Z.to_euclidean_division_equations. lia.
  - apply Z.ltb_ge in E. Z.to_euclidean_division_equations. lia.
Qed.

Lemma animate_spec (n : nat) : ∀ (k : Z) log,
  0 ≤ k →
  ∃ writes,
    animate n (k mod 12) log = ((k + Z.of_nat n) mod 12, log ++ writes) ∧
    length writes = n ∧
    ∀ j : nat, (j < n)%nat →
      writes !! j = Some (VGA_CTRL, 16 * ((k + Z.of_nat j) mod 12) + 1).
Proof.
  induction n as [|n IH]; intros k log Hk.
  - exists []. cbn [animate]. rewrite Z.add_0_r, app_nil_r.
    split; [done|]. split; [done|]. intros; lia.
  - cbn [animate]. rewrite next_frame_cycle by done.
    destruct (IH (k + 1) (vga_write32 VGA_CTRL (Z.lor (shl32 (k mod 12) 4) 1) log))
      as (writes & -> & Hlen & Hlk); [lia|].
    pose proof (Z.mod_pos_bound k 12 ltac:(lia)) as Hm.
    assert (Z.lor (shl32 (k mod 12) 4) 1 = 16 * (k mod 12) + 1) as ->.
    { rewrite shl32_small by (cbn; lia). change (2 ^ 4) with 16.
      rewrite Z.lor_comm. rewrite <- (Z.shiftl_mul_pow2 _ 4) by lia.
      rewrite lor_shiftl_add by (cbn; lia). change (2 ^ 4) with 16. lia. }
    exists ((VGA_CTRL, 16 * (k mod 12) + 1) :: writes).
    unfold vga_write32. rewrite <- app_assoc.
    split; [do 2 f_equal; lia|]. split; [simpl; lia|].
    intros [|j] Hj; cbn [lookup list_lookup].
    + by rewrite Z.add_0_r.
    + rewrite Hlk by lia.
      by replace (k + 1 + Z.of_nat j) with (k + Z.of_nat (S j)) by lia.
Qed.

(** X14.  The animation loop: from any 32-bit counter value the next frame
    index is below 12, and starting from 0 the [j]-th iteration writes
    [((j mod 12) << 4) | 1] to the control register, so the twelve frames are
    selected cyclically in order. *)
Theorem animate_cycles (n : nat) :
  (∀ frame, 0 ≤ next_frame frame < 12) ∧
  ∃ writes,
    animate n 0 [] = (Z.of_nat n mod 12, writes) ∧
    length writes = n ∧
    ∀ j : nat, (j < n)%nat →
      writes !! j = Some (VGA_CTRL, 16 * (Z.of_nat j mod 12) + 1).
Proof.
  split.
  { intros frame. unfold next_frame, FRAME_COUNT.
    pose proof (Z.mod_pos_bound (frame + 1) (2 ^ 32) ltac:(done)) as Hm.
    destruct ((frame + 1) mod 2 ^ 32 <? 12) eqn:E; [|lia].
    apply Z.ltb_lt in E. lia. }
  destruct (animate_spec n 0 []) as (writes & Hrun & Hlen & Hlk); [lia|].
  exists writes. change (0 mod 12) with 0 in Hrun.
  rewrite Hrun. cbn [app]. rewrite Z.add_0_l. split; [done|]. split; [done|].
  intros j Hj. rewrite Hlk by done. by rewrite Z.add_0_l.
Qed.

(** ** The frame loop on a well-formed opcode stream *)

Lemma decompress_frame_good (frame_index : Z) (buf : list Z) (base opcode_len : Z)
    (m : frames) :
  0 ≤ base → 0 ≤ opcode_len → base + opcode_len ≤ Z.of_nat (length buf) →
  frame_sized (frame_buffer m) → frame_sized (prev_frame_buffer m) →
  (frame_index ≠ 0 → Forall pixel (prev_frame_buffer m)) →
  ∃ fb, decompress_frame frame_index buf base opcode_len m
          = Ok {| frame_buffer := fb; prev_frame_buffer := fb |} ∧
        frame_sized fb ∧ Forall pixel fb.
Proof.
  intros Hbase Hlen Hbuf Hfb Hprev Hpx.
  destruct (decide (frame_index = 0)) as [-> | Hidx].
  - destruct (baseline_pass_inv buf base opcode_len (frame_buffer m))
      as (st & Hpass & Hc & Hsz & _ & Hbelow); try done.
    destruct (decompress_frame_baseline buf base opcode_len m st)
      as (fb & -> & Hsz' & Hlk); try done; [lia|].
    exists fb. split; [done|]. split; [done|].
    apply Forall_lookup. intros j p. rewrite Hlk. case_bool_decide as Hj.
    + intros [= <-]. unfold pixel. lia.
    + intros Hp. apply (Hbelow j p); [|done].
      apply lookup_lt_Some in Hp. fs_lia.
  - destruct (delta_pass_pixel_inv buf base opcode_len (prev_frame_buffer m))
      as (st & Hpass & (_ & Hsz) & _ & Hall); try done; [by apply Hpx|].
    exists (pixels st). split; [|done]. by apply decompress_frame_delta.
Qed.

Lemma frame_loop_pieces buf fs (pieces : list (list Z)) : ∀ pos frame m,
  frame_segments (length pieces) fs frame = Ok (segs_of pos pieces) →
  0 ≤ pos → pos + Z.of_nat (length (concat pieces)) ≤ Z.of_nat (length buf) →
  frame_sized (frame_buffer m) → frame_sized (prev_frame_buffer m) →
  (frame ≠ 0 → Forall pixel (prev_frame_buffer m)) → 0 ≤ frame →
  ∃ out, frame_loop (length pieces) buf fs frame m = Ok out ∧
         length out = length pieces ∧
         Forall (λ fb, frame_sized fb ∧ Forall pixel fb) out.
Proof.
  induction pieces as [|p pieces IH]; intros pos frame m Hsegs Hpos Hext Hfb Hprev Hpx Hf.
  - exists []. by repeat split.
  - cbn [length frame_segments segs_of] in Hsegs.
    apply bind_Ok in Hsegs as (seg & Hseg & Hsegs).
    apply bind_Ok in Hsegs as (rest & Hrest & [= -> ->]).
    cbn [concat] in Hext. rewrite length_app in Hext.
    cbn [length frame_loop]. rewrite Hseg. ok_step.
    destruct (decompress_frame_good frame buf pos (Z.of_nat (length p)) m)
      as (fb & -> & Hsz & Hall); try done; try lia.
    ok_step.
    destruct (IH (pos + Z.of_nat (length p)) (frame + 1)
                {| frame_buffer := fb; prev_frame_buffer := fb |})
      as (out & -> & Hlen & Hgood); cbn [frame_buffer prev_frame_buffer];
      try done; try lia.
    ok_step. exists (fb :: out). cbn [frame_buffer length].
    split; [done|]. split; [by rewrite Hlen|]. by constructor.
Qed.

(** X15.  Steps 2 and 3 of [main] on a well-formed opcode stream (at least
    twelve markers among the opcodes decoded): whatever the array
    [frame_starts] and the frame buffers held, every array access stays in
    bounds and exactly twelve frames are produced, each of 4096 pixels that
    are colour indices 0-15. *)
Theorem main_frames_safe (buf : list Z) (total_opcodes : Z) (stack : list Z)
    (m : frames) :
  length stack = 13%nat →
  0 ≤ total_opcodes ≤ Z.of_nat (length buf) →
  (12 ≤ markers (take (Z.to_nat total_opcodes) buf))%nat →
  frame_sized (frame_buffer m) → frame_sized (prev_frame_buffer m) →
  ∃ out, main_frames buf total_opcodes stack m = Ok out ∧
         length out = 12%nat ∧
         Forall (λ fb, frame_sized fb ∧ Forall pixel fb) out.
Proof.
  intros Hstack Htotal Hmarkers Hfb Hprev. unfold main_frames, find_frame_boundaries.
  rewrite store_in_range by lia. ok_step. change (Z.to_nat 0) with 0%nat.
  destruct (scan_loop_spec buf (Z.to_nat total_opcodes) 0 0 (<[0%nat := 0]> stack) [] [])
    as (i' & fc' & fs & pieces & cur & Hrun & Hinv & Hi' & Hend); [|lia|].
  { split; [done|]. split; [done|]. split; [constructor|]. split; [constructor|].
    split; [by rewrite length_insert|]. split; [lia|]. split; [lia|].
    intros k Hk. replace k with 0%nat by lia.
    by rewrite list_lookup_insert_eq by lia. }
  destruct Hinv as (Htake & Hlen & Hterm & Hcur & Hfs & Hfc & Hi & Hslots).
  assert (fc' = 12%nat) as ->.
  { destruct Hend as [-> | ->]; [done|].
    simpl in Htake. rewrite Htake in Hmarkers.
    rewrite (markers_pieces pieces cur Hterm Hcur) in Hmarkers. lia. }
  change (Z.of_nat 0) with 0 in Hrun. rewrite Hrun. ok_step.
  change (Z.to_nat FRAME_COUNT) with 12%nat. rewrite <- Hlen.
  apply (frame_loop_pieces buf fs pieces 0 0 m); try done; try lia.
  - apply (frame_segments_pieces fs pieces []). simpl.
    intros k Hk. apply Hslots. lia.
  - apply (f_equal length) in Htake. rewrite length_take, length_app in Htake. lia.
Qed.

Lemma main_frames_safe_witness :
  ∃ out, main_frames twelve_markers 26 (replicate 13 7) zero_frames = Ok out ∧
         length out = 12%nat ∧
         Forall (λ fb, frame_sized fb ∧ Forall pixel fb) out.
Proof.
  apply (main_frames_safe twelve_markers 26 (replicate 13 7) zero_frames).
  - reflexivity.
  - simpl. lia.
  - vm_compute. lia.
  - apply length_replicate.
  - apply length_replicate.
Defined.
